(** * redstarnv/proxy: the forwarding handler and its observation records

    A shallow embedding of [proxy.go].  The file under [src/] holds two
    revisions of the package one after the other: the earlier one (a
    [ResultCallback], records published for 200 responses only) and the
    current one ([Data] with [Error], [Times] and [Source], one record per
    request).  The current revision is embedded at top level; the earlier
    handler is kept in [Module Legacy] for comparison.

    The Go standard library is the environment.  What the program needs of
    it is modelled here from its documented behaviour: [net/url]'s escaping
    and [URL.String], [http.Header]'s [Get]/[Set] with canonical keys,
    [io.TeeReader], [io.Copy], [http.Error], a [ResponseWriter] that keeps
    the first status it is given.  What the network decides (the clock, what
    [net/url.Parse] accepts, what the transport does during a round trip,
    how many bytes the caller's connection still accepts) is an oracle the
    theorems quantify over. *)

From stdpp Require Import gmap strings list fin_maps.
From Stdlib Require Import ZArith Ascii.
From Stdlib.Strings Require Import Byte.

Local Open Scope Z_scope.

(* ===================================================================== *)
(** ** Bytes and characters *)

Definition in_range (lo hi c : ascii) : bool := Ascii.leb lo c && Ascii.leb c hi.

Definition is_alnum (c : ascii) : bool :=
  in_range "a" "z" c || in_range "A" "Z" c || in_range "0" "9" c.

Definition ascii_in (c : ascii) (s : string) : bool :=
  existsb (Ascii.eqb c) (String.list_ascii_of_string s).

(** The double quote, written by its code. *)
Definition dquote : ascii := "034"%char.

Definition string_all (p : ascii -> bool) (s : string) : bool :=
  forallb p (String.list_ascii_of_string s).

(** [upperhex[n]] for a nibble [n]. *)
Definition upperhex (n : N) : ascii :=
  match String.get (N.to_nat n) "0123456789ABCDEF" with
  | Some c => c
  | None => "0"%char
  end.

Definition ishex (c : ascii) : bool :=
  in_range "0" "9" c || in_range "a" "f" c || in_range "A" "F" c.

Definition unhex (c : ascii) : N :=
  if in_range "0" "9" c then N_of_ascii c - N_of_ascii "0"
  else if in_range "a" "f" c then N_of_ascii c - N_of_ascii "a" + 10
  else if in_range "A" "F" c then N_of_ascii c - N_of_ascii "A" + 10
  else 0.

(* ===================================================================== *)
(** ** net/url: escaping and [URL.String] *)

Inductive encoding :=
| encodePath | encodePathSegment | encodeHost | encodeZone
| encodeUserPassword | encodeQueryComponent | encodeFragment.

Definition encoding_eqb (a b : encoding) : bool :=
  match a, b with
  | encodePath, encodePath | encodePathSegment, encodePathSegment
  | encodeHost, encodeHost | encodeZone, encodeZone
  | encodeUserPassword, encodeUserPassword
  | encodeQueryComponent, encodeQueryComponent
  | encodeFragment, encodeFragment => true
  | _, _ => false
  end.

(** [shouldEscape(c, mode)]: alphanumerics never; in a host the sub-delims
    and the colon, brackets, angle brackets and double quote are kept; the marks [- _ . ~] never; the reserved
    characters depend on the mode; everything else is escaped. *)
Definition shouldEscape (c : ascii) (mode : encoding) : bool :=
  if is_alnum c then false
  else if (encoding_eqb mode encodeHost || encoding_eqb mode encodeZone)
          && (ascii_in c "!$&'()*+,;=:[]<>" || Ascii.eqb c dquote) then false
  else if ascii_in c "-_.~" then false
  else if ascii_in c "$&+,/:;=?@" then
    match mode with
    | encodePath => Ascii.eqb c "?"
    | encodePathSegment => ascii_in c "/;,?"
    | encodeUserPassword => ascii_in c "@/?:"
    | encodeQueryComponent => true
    | encodeFragment => false
    | encodeHost | encodeZone => true
    end
  else true.

Definition escape_byte (c : ascii) (mode : encoding) : string :=
  if Ascii.eqb c " " && encoding_eqb mode encodeQueryComponent then "+"
  else if shouldEscape c mode then
    String "%" (String (upperhex (N.shiftr (N_of_ascii c) 4))
               (String (upperhex (N.land (N_of_ascii c) 15)) ""))
  else String c "".

(** [escape(s, mode)]: every byte that [shouldEscape] becomes [%XX]. *)
Fixpoint escape (s : string) (mode : encoding) : string :=
  match s with
  | EmptyString => ""
  | String c s' => escape_byte c mode +:+ escape s' mode
  end.

(** [validEncoded(s, mode)]. *)
Definition validEncoded (s : string) (mode : encoding) : bool :=
  string_all (fun c => ascii_in c "!$&'()*+,;=:@[]%" || negb (shouldEscape c mode)) s.

(** [unescape(s, mode)]; [None] stands for the [EscapeError] and
    [InvalidHostError] results. *)
Fixpoint unescape (s : string) (mode : encoding) : option string :=
  match s with
  | EmptyString => Some ""
  | String c s' =>
    if Ascii.eqb c "%" then
      match s' with
      | String h (String l rest) =>
        if ishex h && ishex l then
          let v := ascii_of_N (N.lor (N.shiftl (unhex h) 4) (unhex l)) in
          if encoding_eqb mode encodeHost && (unhex h <? 8)%N
             && negb (Ascii.eqb h "2" && Ascii.eqb l "5") then None
          else if encoding_eqb mode encodeZone
             && negb (Ascii.eqb h "2" && Ascii.eqb l "5")
             && negb (Ascii.eqb v " ") && shouldEscape v encodeHost then None
          else String v <$> unescape rest mode
        else None
      | _ => None
      end
    else if Ascii.eqb c "+" then
      String (if encoding_eqb mode encodeQueryComponent then " "%char else c)
        <$> unescape s' mode
    else if (encoding_eqb mode encodeHost || encoding_eqb mode encodeZone)
            && (N_of_ascii c <? 128)%N && shouldEscape c encodeHost then None
    else String c <$> unescape s' mode
  end.

Record Userinfo := {
  username : string;
  password : string;
  passwordSet : bool
}.

Definition Userinfo_String (ui : Userinfo) : string :=
  escape (username ui) encodeUserPassword +:+
  (if passwordSet ui then ":" +:+ escape (password ui) encodeUserPassword else "").

(** [url.URL]. *)
Record URL := {
  Scheme : string;
  Opaque : string;
  User : option Userinfo;
  Host : string;
  Path : string;
  RawPath : string;
  ForceQuery : bool;
  RawQuery : string;
  Fragment : string
}.

Definition nonempty (s : string) : bool := negb (String.eqb s "").

Definition EscapedPath (u : URL) : string :=
  if nonempty (RawPath u) && validEncoded (RawPath u) encodePath
     && match unescape (RawPath u) encodePath with
        | Some p => String.eqb p (Path u)
        | None => false
        end
  then RawPath u
  else if String.eqb (Path u) "*" then "*"
  else escape (Path u) encodePath.

(** Is there a colon in the first path segment (before any slash)? *)
Fixpoint colon_in_first_segment (path : string) : bool :=
  match path with
  | EmptyString => false
  | String c rest =>
    if Ascii.eqb c ":" then true
    else if Ascii.eqb c "/" then false
    else colon_in_first_segment rest
  end.

Definition starts_with_slash (s : string) : bool :=
  match s with
  | String c _ => Ascii.eqb c "/"
  | EmptyString => false
  end.

(** [URL.String]: the buffer is threaded through the same tests, in the
    same order, as the method writes it. *)
Definition URL_String (u : URL) : string :=
  let buf := if nonempty (Scheme u) then Scheme u +:+ ":" else "" in
  let buf :=
    if nonempty (Opaque u) then buf +:+ Opaque u
    else
      let buf :=
        if nonempty (Scheme u) || nonempty (Host u) || bool_decide (is_Some (User u)) then
          let buf :=
            if nonempty (Host u) || nonempty (Path u) || bool_decide (is_Some (User u))
            then buf +:+ "//" else buf in
          let buf :=
            match User u with
            | Some ui => buf +:+ Userinfo_String ui +:+ "@"
            | None => buf
            end in
          if nonempty (Host u) then buf +:+ escape (Host u) encodeHost else buf
        else buf in
      let path := EscapedPath u in
      let buf :=
        if nonempty path && negb (starts_with_slash path) && nonempty (Host u)
        then buf +:+ "/" else buf in
      let buf :=
        if String.eqb buf "" && colon_in_first_segment path then buf +:+ "./" else buf in
      buf +:+ path in
  let buf :=
    if ForceQuery u || nonempty (RawQuery u) then buf +:+ "?" +:+ RawQuery u else buf in
  if nonempty (Fragment u) then buf +:+ "#" +:+ escape (Fragment u) encodeFragment
  else buf.

(* ===================================================================== *)
(** ** proxy.go: [rewrite] *)

(** [rewrite(source, target)]: scheme and host of the target, path and raw
    query of the source, every other field left at its zero value. *)
Definition rewrite (source target : URL) : string :=
  let u := {| Scheme := Scheme target;
              Opaque := "";
              User := None;
              Host := Host target;
              Path := Path source;
              RawPath := "";
              ForceQuery := false;
              RawQuery := RawQuery source;
              Fragment := "" |} in
  URL_String u.

(* ===================================================================== *)
(** ** net/textproto and net/http: header maps *)

(** [validHeaderFieldByte]: the token characters of RFC 7230. *)
Definition validHeaderFieldByte (c : ascii) : bool :=
  is_alnum c || ascii_in c "!#$%&'*+-.^_`|~".

Definition toLower : N := 32.

(** The case pass of [canonicalMIMEHeaderKey]: upper case at the start and
    after each dash, lower case elsewhere. *)
Fixpoint canonical_case (upper : bool) (s : string) : string :=
  match s with
  | EmptyString => ""
  | String c s' =>
    let c' :=
      if upper && in_range "a" "z" c then ascii_of_N (N_of_ascii c - toLower)
      else if negb upper && in_range "A" "Z" c then ascii_of_N (N_of_ascii c + toLower)
      else c in
    String c' (canonical_case (Ascii.eqb c' "-") s')
  end.

(** [textproto.CanonicalMIMEHeaderKey]: a key holding a byte that is not a
    token character comes back unchanged. *)
Definition CanonicalMIMEHeaderKey (s : string) : string :=
  if string_all validHeaderFieldByte s then canonical_case true s else s.

(** [http.Header] is [map[string][]string]. *)
Abbreviation Header := (gmap string (list string)).

(** [h.Get(key)]: the first value under the canonical key, or the empty
    string. *)
Definition first_value (h : Header) (c : string) : string :=
  match h !! c with
  | Some (v :: _) => v
  | _ => ""
  end.

Definition Header_Get (h : Header) (key : string) : string :=
  first_value h (CanonicalMIMEHeaderKey key).

(** [h.Set(key, value)]: the canonical key now holds the single value. *)
Definition Header_Set (h : Header) (key value : string) : Header :=
  <[CanonicalMIMEHeaderKey key := [value]]> h.

(** The body of [copyHeaders], for the keys of [src] visited in the order
    [ks]: Go leaves the order of [range] over a map unspecified. *)
Definition copyHeaders_from (ks : list string) (dst src : Header) : Header :=
  foldl (fun dst k => Header_Set dst k (Header_Get src k)) dst ks.

(** [copyHeaders(dst, src)].  The order stdpp enumerates the keys in stands
    for the one the run-time picks; [copyHeaders_any_order] shows the result
    does not depend on it. *)
Definition copyHeaders (dst src : Header) : Header :=
  copyHeaders_from (map_to_list src).*1 dst src.

(** [validMethod(method)]: a non-empty token. *)
Definition validMethod (method : string) : bool :=
  nonempty method && string_all validHeaderFieldByte method.

Definition lowerhex (n : N) : ascii :=
  match String.get (N.to_nat n) "0123456789abcdef" with
  | Some c => c
  | None => "0"%char
  end.

(** [strconv.Quote] byte by byte: exact on ASCII; a byte above 0x7f is
    written as Go writes one that is not part of a valid UTF-8 sequence. *)
Definition quote_byte (c : ascii) : string :=
  let n := N_of_ascii c in
  if Ascii.eqb c dquote || Ascii.eqb c "\" then String "\" (String c "")
  else if in_range " " "~" c then String c ""
  else match n with
       | 7%N => "\a" | 8%N => "\b" | 12%N => "\f" | 10%N => "\n"
       | 13%N => "\r" | 9%N => "\t" | 11%N => "\v"
       | _ => String "\" (String "x" (String (lowerhex (N.shiftr n 4))
                                     (String (lowerhex (N.land n 15)) "")))
       end.

Fixpoint quote_bytes (s : string) : string :=
  match s with
  | EmptyString => ""
  | String c s' => quote_byte c +:+ quote_bytes s'
  end.

Definition strconv_Quote (s : string) : string :=
  String dquote (quote_bytes s +:+ String dquote "").

(* ===================================================================== *)
(** ** Errors, time, readers *)

(** A Go [error] value.  [io.EOF] and [io.ErrShortWrite] are compared by
    identity in [io.Copy]; any other error is known by its text. *)
Inductive error :=
| io_EOF
| io_ErrShortWrite
| errorString (msg : string).

(** [err.Error()]. *)
Definition error_Error (e : error) : string :=
  match e with
  | io_EOF => "EOF"
  | io_ErrShortWrite => "short write"
  | errorString msg => msg
  end.

(** [time.Time] as nanoseconds counted from the zero [Time]; [0] is the
    zero value, the one for which [IsZero] holds. *)
Definition Time := Z.
Definition Time_IsZero (t : Time) : bool := (t =? 0).

(** The outcome of one [Read]: the bytes handed over and the error, if
    any, that came with them. *)
Record read_result := {
  rr_bytes : list byte;
  rr_err : option error
}.

(** An [io.Reader], given by what its successive [Read] calls return; once
    the list is used up every [Read] returns no bytes and [io.EOF]. *)
Definition Reader := list read_result.

Definition Reader_Read (r : Reader) : read_result * Reader :=
  match r with
  | [] => ({| rr_bytes := []; rr_err := Some io_EOF |}, [])
  | rr :: r' => (rr, r')
  end.

(** All the bytes a reader hands over in its first [n] reads. *)
Definition read_bytes (n : nat) (r : Reader) : list byte :=
  concat (rr_bytes <$> take n r).

(* ===================================================================== *)
(** ** proxy.go: [Data] and [Times] *)

Record Times := {
  Start : Time;
  WroteRequest : Time;
  GotFirstResponseByte : Time;
  End_ : Time
}.

(** [Request] and [Response] are [io.Reader] interface values: [None] is
    [nil], [Some a] the [*bytes.Buffer] at address [a] of the heap.  The
    record holds the pointer, not the bytes. *)
Record Data := {
  StatusCode : Z;
  Request : option nat;
  Response : option nat;
  Error : option error;
  Times_ : Times;
  Source : string
}.

Definition Times_zero : Times :=
  {| Start := 0; WroteRequest := 0; GotFirstResponseByte := 0; End_ := 0 |}.

(** The zero value of [Data], what [var d Data] declares. *)
Definition Data_zero : Data :=
  {| StatusCode := 0; Request := None; Response := None; Error := None;
     Times_ := Times_zero; Source := "" |}.

Definition StatusServiceUnavailable : Z := 503.
Definition StatusOK : Z := 200.

Inductive field := FStart | FWroteRequest | FGotFirstResponseByte | FEnd.

Definition Times_get (f : field) (t : Times) : Time :=
  match f with
  | FStart => Start t
  | FWroteRequest => WroteRequest t
  | FGotFirstResponseByte => GotFirstResponseByte t
  | FEnd => End_ t
  end.

Definition Times_set (f : field) (v : Time) (t : Times) : Times :=
  match f with
  | FStart => {| Start := v; WroteRequest := WroteRequest t;
                 GotFirstResponseByte := GotFirstResponseByte t; End_ := End_ t |}
  | FWroteRequest => {| Start := Start t; WroteRequest := v;
                 GotFirstResponseByte := GotFirstResponseByte t; End_ := End_ t |}
  | FGotFirstResponseByte => {| Start := Start t; WroteRequest := WroteRequest t;
                 GotFirstResponseByte := v; End_ := End_ t |}
  | FEnd => {| Start := Start t; WroteRequest := WroteRequest t;
                 GotFirstResponseByte := GotFirstResponseByte t; End_ := v |}
  end.

Definition Data_with_StatusCode (v : Z) (x : Data) : Data :=
  {| StatusCode := v; Request := Request x; Response := Response x;
     Error := Error x; Times_ := Times_ x; Source := Source x |}.
Definition Data_with_Request (v : option nat) (x : Data) : Data :=
  {| StatusCode := StatusCode x; Request := v; Response := Response x;
     Error := Error x; Times_ := Times_ x; Source := Source x |}.
Definition Data_with_Response (v : option nat) (x : Data) : Data :=
  {| StatusCode := StatusCode x; Request := Request x; Response := v;
     Error := Error x; Times_ := Times_ x; Source := Source x |}.
Definition Data_with_Error (v : option error) (x : Data) : Data :=
  {| StatusCode := StatusCode x; Request := Request x; Response := Response x;
     Error := v; Times_ := Times_ x; Source := Source x |}.
Definition Data_with_Times (v : Times) (x : Data) : Data :=
  {| StatusCode := StatusCode x; Request := Request x; Response := Response x;
     Error := Error x; Times_ := v; Source := Source x |}.
Definition Data_with_Source (v : string) (x : Data) : Data :=
  {| StatusCode := StatusCode x; Request := Request x; Response := Response x;
     Error := Error x; Times_ := Times_ x; Source := v |}.

(* ===================================================================== *)
(** ** The caller-facing [http.ResponseWriter] *)

(** The header map the handler edits, the status and header map that went
    out with the first [WriteHeader], the body bytes accepted so far, and
    how much more the caller's connection takes: [None] for any amount,
    [Some (k, e)] for [k] more bytes and then the error [e]. *)
Record ResponseWriter := {
  w_Header : Header;
  w_status : option Z;
  w_sentHeader : Header;
  w_body : list byte;
  w_room : option (nat * error)
}.

Definition rw_with_Header (h : Header) (rw : ResponseWriter) : ResponseWriter :=
  {| w_Header := h; w_status := w_status rw; w_sentHeader := w_sentHeader rw;
     w_body := w_body rw; w_room := w_room rw |}.

(** [w.WriteHeader(code)]: the first call sends the status with the header
    map as it is then; a later call changes nothing. *)
Definition rw_WriteHeader (code : Z) (rw : ResponseWriter) : ResponseWriter :=
  match w_status rw with
  | Some _ => rw
  | None => {| w_Header := w_Header rw; w_status := Some code;
               w_sentHeader := w_Header rw; w_body := w_body rw;
               w_room := w_room rw |}
  end.

(** [w.Write(p)]: sends status 200 first if none went out, then hands over
    as much of [p] as the connection takes. *)
Definition rw_Write (p : list byte) (rw : ResponseWriter)
  : (nat * option error) * ResponseWriter :=
  let rw := rw_WriteHeader StatusOK rw in
  match w_room rw with
  | None =>
    ((length p, None),
     {| w_Header := w_Header rw; w_status := w_status rw;
        w_sentHeader := w_sentHeader rw; w_body := w_body rw ++ p;
        w_room := None |})
  | Some (k, e) =>
    if (length p <=? k)%nat then
      ((length p, None),
       {| w_Header := w_Header rw; w_status := w_status rw;
          w_sentHeader := w_sentHeader rw; w_body := w_body rw ++ p;
          w_room := Some ((k - length p)%nat, e) |})
    else
      ((k, Some e),
       {| w_Header := w_Header rw; w_status := w_status rw;
          w_sentHeader := w_sentHeader rw; w_body := w_body rw ++ take k p;
          w_room := Some (0%nat, e) |})
  end.

(** A writer as the server hands it to the handler. *)
Definition fresh_writer (room : option (nat * error)) : ResponseWriter :=
  {| w_Header := ∅; w_status := None; w_sentHeader := ∅; w_body := [];
     w_room := room |}.

(* ===================================================================== *)
(** ** The world of one request *)

Inductive closer := RequestBody | ResponseBody.

(** What the handler does that can be seen from outside, in order. *)
Inductive event :=
| EvStamp (f : field) (t : Time)       (* d.Times.f = time.Now() *)
| EvSend (x : Data)                    (* ch <- x *)
| EvLog (u : URL) (code : Z) (msg : option string)   (* log.Printf *)
| EvCallback (code : Z) (err : option error)         (* cb(code, err), earlier revision *)
| EvWriteHeader (code : Z)             (* w.WriteHeader(code) *)
| EvWrite (p : list byte) (n : nat)    (* w.Write(p) took n bytes *)
| EvClose (c : closer).                (* Body.Close() *)

(** The state a request runs in: the [bytes.Buffer]s by address, the
    handler's variable [d] (reached through [&d] by [handleRequest] and by
    the trace hooks), what is left of the caller's body [r.Body], the
    response writer, the number of [time.Now] calls so far, and the events
    so far, oldest first. *)
Record World := {
  heap : list (list byte);
  d : Data;
  rBody : Reader;
  w : ResponseWriter;
  nows : nat;
  trace : list event
}.

(** A computation in that state. *)
Definition M (A : Type) : Type := World -> A * World.

#[global] Instance M_ret : MRet M := fun A a st => (a, st).
#[global] Instance M_bind : MBind M :=
  fun A B f m st => let (a, st') := m st in f a st'.

Definition modify (f : World -> World) : M unit := fun st => (tt, f st).
Definition gets {A} (f : World -> A) : M A := fun st => (f st, st).

Definition with_heap (h : list (list byte)) (st : World) : World :=
  {| heap := h; d := d st; rBody := rBody st; w := w st; nows := nows st;
     trace := trace st |}.
Definition with_d (x : Data) (st : World) : World :=
  {| heap := heap st; d := x; rBody := rBody st; w := w st; nows := nows st;
     trace := trace st |}.
Definition with_rBody (r : Reader) (st : World) : World :=
  {| heap := heap st; d := d st; rBody := r; w := w st; nows := nows st;
     trace := trace st |}.
Definition with_w (rw : ResponseWriter) (st : World) : World :=
  {| heap := heap st; d := d st; rBody := rBody st; w := rw; nows := nows st;
     trace := trace st |}.
Definition with_nows (n : nat) (st : World) : World :=
  {| heap := heap st; d := d st; rBody := rBody st; w := w st; nows := n;
     trace := trace st |}.
Definition with_trace (tr : list event) (st : World) : World :=
  {| heap := heap st; d := d st; rBody := rBody st; w := w st; nows := nows st;
     trace := tr |}.

Definition emit (ev : event) : M unit :=
  modify (fun st => with_trace (trace st ++ [ev]) st).

Definition update_d (f : Data -> Data) : M unit :=
  modify (fun st => with_d (f (d st)) st).

(** [d.Times.f = t]. *)
Definition set_time (f : field) (t : Time) : M unit :=
  update_d (fun x => Data_with_Times (Times_set f t (Times_ x)) x) ;;
  emit (EvStamp f t).

(** [&bytes.Buffer{}]: a new empty buffer, at the next free address. *)
Definition Buffer_new : M nat :=
  fun st => (length (heap st), with_heap (heap st ++ [[]]) st).

(** [buf.Write(p)]: appends, never fails. *)
Definition Buffer_Write (buf : nat) (p : list byte) : M unit :=
  modify (fun st => with_heap (alter (fun b => b ++ p) buf (heap st)) st).

(** What [io.TeeReader(r, buf).Read] does with the result of [r.Read]: the
    bytes, if any, are written to [buf] before they are returned. *)
Definition tee (buf : nat) (rr : read_result) : M read_result :=
  (if (0 <? length (rr_bytes rr))%nat then Buffer_Write buf (rr_bytes rr)
   else mret tt) ;;
  mret rr.

(** [io.TeeReader(r.Body, buf).Read]. *)
Definition tee_rBody_Read (buf : nat) : M read_result :=
  rr ← (fun st => let (rr, r') := Reader_Read (rBody st) in (rr, with_rBody r' st)) ;
  tee buf rr.

Definition w_WriteHeader (code : Z) : M unit :=
  modify (fun st => with_w (rw_WriteHeader code (w st)) st) ;;
  emit (EvWriteHeader code).

Definition w_Write (p : list byte) : M (nat * option error) :=
  res ← (fun st => let (res, rw) := rw_Write p (w st) in (res, with_w rw st)) ;
  emit (EvWrite p res.1) ;;
  mret res.

(** [w.Header().Set(k, v)]. *)
Definition w_Header_Set (k v : string) : M unit :=
  modify (fun st => with_w (rw_with_Header (Header_Set (w_Header (w st)) k v) (w st)) st).

(** [http.Error(w, msg, code)]: two header fields, the status, then the
    message and a newline in one [Write] whose result is dropped. *)
Definition http_Error (msg : string) (code : Z) : M unit :=
  w_Header_Set "Content-Type" "text/plain; charset=utf-8" ;;
  w_Header_Set "X-Content-Type-Options" "nosniff" ;;
  w_WriteHeader code ;;
  _ ← w_Write (String.list_byte_of_string msg ++ [x0a]) ;
  mret tt.

(** What one [io.Copy(w, io.TeeReader(src, buf))] comes to: the bytes [w]
    took, the error returned, the [Read] calls made, the bytes the tee
    wrote to [buf], the writer afterwards and the [Write] events. *)
Record copied := {
  cp_written : nat;
  cp_err : option error;
  cp_reads : nat;
  cp_teed : list byte;
  cp_w : ResponseWriter;
  cp_events : list event
}.

(** The loop of [io.Copy] over a tee reader, one iteration per [Read] of
    [src].  The tee has written the bytes of a [Read] to its buffer before
    the loop sees them, so they count as teed whatever [w.Write] then does
    with them.  The loop ends on a write error, a short write, or the error
    of the [Read] (of which [io.EOF] is not reported). *)
Fixpoint copy_loop (src : Reader) (rw : ResponseWriter) : copied :=
  match src with
  | [] =>
    {| cp_written := 0; cp_err := None; cp_reads := 1; cp_teed := [];
       cp_w := rw; cp_events := [] |}
  | rr :: src' =>
    let p := rr_bytes rr in
    let nr := length p in
    let '((nw, ew), rw', evs) :=
      if (0 <? nr)%nat
      then let '(res, rw') := rw_Write p rw in (res, rw', [EvWrite p res.1])
      else ((0%nat, None), rw, []) in
    let stop (err : option error) :=
      {| cp_written := nw; cp_err := err; cp_reads := 1; cp_teed := p;
         cp_w := rw'; cp_events := evs |} in
    match ew with
    | Some e => stop (Some e)
    | None =>
      if (0 <? nr)%nat && negb (nr =? nw)%nat then stop (Some io_ErrShortWrite)
      else
        match rr_err rr with
        | Some io_EOF => stop None
        | Some er => stop (Some er)
        | None =>
          let c := copy_loop src' rw' in
          {| cp_written := (nw + cp_written c)%nat; cp_err := cp_err c;
             cp_reads := S (cp_reads c); cp_teed := p ++ cp_teed c;
             cp_w := cp_w c; cp_events := evs ++ cp_events c |}
        end
    end
  end.

(** [io.Copy(w, io.TeeReader(src, buf))] in the world of the request. *)
Definition io_Copy (src : Reader) (buf : nat) : M (nat * option error) :=
  fun st =>
    let c := copy_loop src (w st) in
    ((cp_written c, cp_err c),
     with_trace (trace st ++ cp_events c)
       (with_w (cp_w c)
          (with_heap (alter (fun b => b ++ cp_teed c) buf (heap st)) st))).

(* ===================================================================== *)
(** ** The outbound request and the transport *)

(** [httptrace.WroteRequestInfo]: the hook is called with the result of
    writing the request and any body, and [Err] is the error, if any, that
    the writing met. *)
Record WroteRequestInfo := {
  Err : option error
}.

(** [httptrace.ClientTrace], with the two hooks the program installs.  A
    hook is a closure over [d]: a computation in the request's world. *)
Record ClientTrace := {
  hook_WroteRequest : WroteRequestInfo -> M unit;
  hook_GotFirstResponseByte : M unit
}.

(** The [*http.Request] built for the upstream: its body is a reader that
    is read by calling [out_Body]. *)
Record out_Request := {
  out_Method : string;
  out_URL : URL;
  out_Header : Header;
  out_Body : M read_result;
  out_Trace : option ClientTrace
}.

(** The inbound [*http.Request], as far as the handler reads it; its body
    is [rBody] of the world. *)
Record http_Request := {
  Method : string;
  rURL : URL;
  rHeader : Header
}.

Record http_Response := {
  res_StatusCode : Z;
  res_Header : Header;
  res_Body : Reader
}.

(** What a transport can do with a request while it is in [RoundTrip]:
    read the body, report how the writing of the request ended, report the
    first byte of the response. *)
Inductive taction :=
| TRead
| TWroteRequest (info : WroteRequestInfo)
| TGotFirstResponseByte.

(** One round trip, as the network made it turn out: the steps taken, in
    order, and what [RoundTrip] returned. *)
Record RoundTrip := {
  rt_steps : list taction;
  rt_result : http_Response + error
}.

(** What lies outside the program during one request. *)
Record Env := {
  now : nat -> Time;                   (* the n-th reading of time.Now() *)
  url_Parse : string -> URL + error;   (* net/url.Parse *)
  roundTrip : RoundTrip                (* transport.RoundTrip for this request *)
}.

Definition time_Now (env : Env) : M Time :=
  fun st => (now env (nows st), with_nows (S (nows st)) st).

Definition fire (hook : ClientTrace -> M unit) (req : out_Request) : M unit :=
  match out_Trace req with
  | Some tr => hook tr
  | None => mret tt
  end.

Definition step (req : out_Request) (a : taction) : M unit :=
  match a with
  | TRead => _ ← out_Body req ; mret tt
  | TWroteRequest info => fire (fun tr => hook_WroteRequest tr info) req
  | TGotFirstResponseByte => fire hook_GotFirstResponseByte req
  end.

Fixpoint steps (req : out_Request) (l : list taction) : M unit :=
  match l with
  | [] => mret tt
  | a :: l' => step req a ;; steps req l'
  end.

(** [transport.RoundTrip(req)]. *)
Definition Transport_RoundTrip (env : Env) (req : out_Request)
  : M (http_Response + error) :=
  steps req (rt_steps (roundTrip env)) ;;
  mret (rt_result (roundTrip env)).

(** [http.NewRequest(method, url, body)]: an empty method means GET, the
    method must be a token, the URL must parse. *)
Definition http_NewRequest (env : Env) (method url : string) (body : M read_result)
  : out_Request + error :=
  let method := if String.eqb method "" then "GET" else method in
  if negb (validMethod method) then
    inr (errorString ("net/http: invalid method " +:+ strconv_Quote method))
  else
    match url_Parse env url with
    | inr err => inr err
    | inl u => inl {| out_Method := method; out_URL := u; out_Header := ∅;
                      out_Body := body; out_Trace := None |}
    end.

(* ===================================================================== *)
(** ** proxy.go: the pipeline *)

(** [prepareRequest(r, d, target)]. *)
Definition prepareRequest (env : Env) (r : http_Request) (target : URL)
  : M (out_Request + error) :=
  let newurl := rewrite (rURL r) target in
  buf ← Buffer_new ;
  let res := http_NewRequest env (Method r) newurl (tee_rBody_Read buf) in
  update_d (Data_with_Request (Some buf)) ;;
  match res with
  | inr err => mret (inr err)
  | inl req =>
    let trace := {|
      hook_WroteRequest := (fun _ => t ← time_Now env ; set_time FWroteRequest t);
      hook_GotFirstResponseByte := (t ← time_Now env ; set_time FGotFirstResponseByte t)
    |} in
    mret (inl {| out_Method := out_Method req; out_URL := out_URL req;
                 out_Header := copyHeaders (out_Header req) (rHeader r);
                 out_Body := out_Body req; out_Trace := Some trace |})
  end.

(** [process(transport, d, req, w)]. *)
Definition process (env : Env) (req : out_Request) : M (option error) :=
  rt ← Transport_RoundTrip env req ;
  match rt with
  | inr err =>
    update_d (Data_with_StatusCode StatusServiceUnavailable) ;;
    mret (Some err)
  | inl res =>
    update_d (Data_with_StatusCode (res_StatusCode res)) ;;
    responseBuf ← Buffer_new ;
    modify (fun st => with_w (rw_with_Header
              (copyHeaders (w_Header (w st)) (res_Header res)) (w st)) st) ;;
    w_WriteHeader (res_StatusCode res) ;;
    '(_, err) ← io_Copy (res_Body res) responseBuf ;
    update_d (Data_with_Response (Some responseBuf)) ;;
    emit (EvClose ResponseBody) ;;
    mret err
  end.

(** [handleRequest(transport, w, d, r, u)]. *)
Definition handleRequest (env : Env) (r : http_Request) (u : URL) : M (option error) :=
  res ← prepareRequest env r u ;
  match res with
  | inr err => mret (Some err)
  | inl req =>
    update_d (Data_with_Source (Header_Get (rHeader r) "Source")) ;;
    process env req
  end.

(** The closure [NewHandler] returns, for the parsed target [u]. *)
Definition handler (env : Env) (u : URL) (r : http_Request) : M unit :=
  update_d (fun _ => Data_zero) ;;
  t ← time_Now env ; set_time FStart t ;;
  err ← handleRequest env r u ; update_d (Data_with_Error err) ;;
  t ← time_Now env ; set_time FEnd t ;;
  x ← gets d ; emit (EvSend x) ;;
  match Error x with
  | Some e =>
    emit (EvLog (rURL r) StatusServiceUnavailable (Some (error_Error e))) ;;
    http_Error (error_Error e) StatusServiceUnavailable ;;
    emit (EvClose RequestBody)
  | None =>
    emit (EvLog (rURL r) (StatusCode x) None) ;;
    emit (EvClose RequestBody)
  end.

(** [NewHandler(targetURL, timeout, ch)]: no handler when the target does
    not parse. *)
Definition NewHandler (env : Env) (targetURL : string)
  : (http_Request -> M unit) + error :=
  match url_Parse env targetURL with
  | inr err => inr err
  | inl u => inl (handler env u)
  end.

(** The records sent on the channel, oldest first. *)
Definition sent (tr : list event) : list Data :=
  omap (fun ev => match ev with EvSend x => Some x | _ => None end) tr.

(** The world a request starts in: the caller's body [body], the writer
    [rw], nothing allocated and nothing observed yet. *)
Definition start (body : Reader) (rw : ResponseWriter) : World :=
  {| heap := []; d := Data_zero; rBody := body; w := rw; nows := 0%nat; trace := [] |}.

(** The world after the handler has served [r]. *)
Definition serve (env : Env) (u : URL) (r : http_Request)
    (body : Reader) (rw : ResponseWriter) : World :=
  (handler env u r (start body rw)).2.

(** The bytes a published record's reader holds. *)
Definition contents (st : World) (rd : option nat) : option (list byte) :=
  a ← rd ; heap st !! a.

(* ===================================================================== *)
(** ** The earlier revision of proxy.go *)

Module Legacy.

(** The earlier [Data] has the fields [StatusCode], [Request] and
    [Response] only; it is written as a [Data] whose other fields keep
    their zero value.  The variable [d] of the world is not used. *)
Definition mkData (code : Z) (req res : option nat) : Data :=
  {| StatusCode := code; Request := req; Response := res; Error := None;
     Times_ := Times_zero; Source := "" |}.

(** [prepareRequest(r, newurl, buf)]. *)
Definition prepareRequest (env : Env) (r : http_Request) (newurl : string) (buf : nat)
  : out_Request + error :=
  match http_NewRequest env (Method r) newurl (tee_rBody_Read buf) with
  | inr err => inr err
  | inl req =>
    inl {| out_Method := out_Method req; out_URL := out_URL req;
           out_Header := copyHeaders (out_Header req) (rHeader r);
           out_Body := out_Body req; out_Trace := out_Trace req |}
  end.

(** [process(transport, target, w, r)]; the deferred [Close] calls run
    last, the response body's first. *)
Definition process (env : Env) (target : URL) (r : http_Request) : M (Data * option error) :=
  let newurl := rewrite (rURL r) target in
  requestBuf ← Buffer_new ;
  match prepareRequest env r newurl requestBuf with
  | inr err => emit (EvClose RequestBody) ;; mret (Data_zero, Some err)
  | inl req =>
    rt ← Transport_RoundTrip env req ;
    match rt with
    | inr err => emit (EvClose RequestBody) ;; mret (Data_zero, Some err)
    | inl res =>
      responseBuf ← Buffer_new ;
      modify (fun st => with_w (rw_with_Header
                (copyHeaders (w_Header (w st)) (res_Header res)) (w st)) st) ;;
      w_WriteHeader (res_StatusCode res) ;;
      '(_, err) ← io_Copy (res_Body res) responseBuf ;
      emit (EvClose ResponseBody) ;;
      emit (EvClose RequestBody) ;;
      mret (mkData (res_StatusCode res) (Some requestBuf) (Some responseBuf), err)
    end
  end.

(** The closure the earlier [NewHandler] returns: a record goes on the
    channel only when there was no error and the status is 200. *)
Definition handler (env : Env) (u : URL) (r : http_Request) : M unit :=
  '(x, err) ← process env u r ;
  match err with
  | Some e =>
    emit (EvLog (rURL r) StatusServiceUnavailable (Some (error_Error e))) ;;
    emit (EvCallback (-1) (Some e)) ;;
    http_Error (error_Error e) StatusServiceUnavailable
  | None =>
    emit (EvLog (rURL r) (StatusCode x) None) ;;
    emit (EvCallback (StatusCode x) None) ;;
    if StatusCode x =? StatusOK then emit (EvSend x) else mret tt
  end.

Definition NewHandler (env : Env) (targetURL : string)
  : (http_Request -> M unit) + error :=
  match url_Parse env targetURL with
  | inr err => inr err
  | inl u => inl (handler env u)
  end.

Definition serve (env : Env) (u : URL) (r : http_Request)
    (body : Reader) (rw : ResponseWriter) : World :=
  (handler env u r (start body rw)).2.

End Legacy.

(* ===================================================================== *)
(** ** Definitions the statements use *)

(** No byte of [s] is one [escape] would rewrite in [mode]. *)
Definition unescaped (s : string) (mode : encoding) : bool :=
  string_all (fun c => negb (shouldEscape c mode)) s.

(** The path as [rewrite] prints it: [EscapedPath] of a URL without a
    raw path. *)
Definition printed_path (path : string) : string :=
  if String.eqb path "*" then "*" else escape path encodePath.

Definition printed_query (q : string) : string :=
  if nonempty q then "?" +:+ q else "".

(** Sample inputs. *)
Definition mkURL (scheme host path query : string) : URL :=
  {| Scheme := scheme; Opaque := ""; User := None; Host := host; Path := path;
     RawPath := ""; ForceQuery := false; RawQuery := query; Fragment := "" |}.

Definition sample_target : URL := mkURL "http" "up.example" "" "".

Definition sample_source : URL :=
  {| Scheme := "https"; Opaque := ""; User := None; Host := "in.example:8080";
     Path := "/some/path"; RawPath := ""; ForceQuery := false;
     RawQuery := "a=1&b=2"; Fragment := "frag" |}.

Definition spaced_source : URL := mkURL "" "" "/a b" "x=1".

(** A header map in which the name X-Foo came twice, first with the value
    a and then with b. *)
Definition repeated_header : Header := {[ "X-Foo" := ["a"; "b"] ]}.

(** The error, if any, with which building the outbound request fails; it
    depends on the inbound method and the rewritten URL, not on the body. *)
Definition construction_error (env : Env) (u : URL) (r : http_Request) : option error :=
  match http_NewRequest env (Method r) (rewrite (rURL r) u)
          (mret {| rr_bytes := []; rr_err := None |}) with
  | inr e => Some e
  | inl _ => None
  end.

(** The trace [prepareRequest] attaches to the outbound request. *)
Definition the_hooks (env : Env) : ClientTrace :=
  {| hook_WroteRequest := (fun _ => t ← time_Now env ; set_time FWroteRequest t);
     hook_GotFirstResponseByte := (t ← time_Now env ; set_time FGotFirstResponseByte t) |}.

(** The caller's writer once [process] has copied the upstream's header
    onto it and written the upstream's status: the writer the relay starts
    from. *)
Definition relay_writer (rw : ResponseWriter) (res : http_Response) : ResponseWriter :=
  rw_WriteHeader (res_StatusCode res)
    (rw_with_Header (copyHeaders (w_Header rw) (res_Header res)) rw).

(** The relay of the upstream's body to the caller. *)
Definition relay (rw : ResponseWriter) (res : http_Response) : copied :=
  copy_loop (res_Body res) (relay_writer rw res).

(** The first thing that fails for a request, if anything does: building
    the outbound request, the round trip, or the relay of the body. *)
Definition failure (env : Env) (u : URL) (r : http_Request) (rw : ResponseWriter)
  : option error :=
  match construction_error env u r with
  | Some e => Some e
  | None =>
    match rt_result (roundTrip env) with
    | inr e => Some e
    | inl res => cp_err (relay rw res)
    end
  end.

Definition is_TRead (a : taction) : bool :=
  match a with TRead => true | _ => false end.
Definition is_TWroteRequest (a : taction) : bool :=
  match a with TWroteRequest _ => true | _ => false end.
Definition is_TGotFirstResponseByte (a : taction) : bool :=
  match a with TGotFirstResponseByte => true | _ => false end.

(** How often a round trip takes a step of the kind [p]. *)
Definition times_taken (p : taction -> bool) (l : list taction) : nat :=
  length (List.filter p l).

(** The transport reports that the request was written in full: it fires
    the hook with no error. *)
Definition fully_written (l : list taction) : bool :=
  existsb (fun a => match a with
                    | TWroteRequest info => bool_decide (Err info = None)
                    | _ => false
                    end) l.

Definition written : taction := TWroteRequest {| Err := None |}.

(** The field a step of the transport stamps through its hook. *)
Definition hook_field (a : taction) : option field :=
  match a with
  | TRead => None
  | TWroteRequest _ => Some FWroteRequest
  | TGotFirstResponseByte => Some FGotFirstResponseByte
  end.

(** The stamps the hooks make during the steps [l] when [n] readings of
    the clock were taken before. *)
Fixpoint hook_stamps (env : Env) (n : nat) (l : list taction) : list (field * Time) :=
  match l with
  | [] => []
  | a :: l' =>
    match hook_field a with
    | Some f => (f, now env n) :: hook_stamps env (S n) l'
    | None => hook_stamps env n l'
    end
  end.

Definition apply_stamps (ss : list (field * Time)) (t : Times) : Times :=
  foldl (fun t s => Times_set s.1 s.2 t) t ss.

Definition stamp_event (s : field * Time) : event := EvStamp s.1 s.2.

(** The world after the transport has taken the steps [l] on the request
    [prepareRequest] built around the buffer [buf]. *)
Definition after_steps (env : Env) (buf : nat) (l : list taction) (st : World) : World :=
  let ss := hook_stamps env (nows st) l in
  {| heap := alter (fun b => b ++ read_bytes (times_taken is_TRead l) (rBody st)) buf (heap st);
     d := Data_with_Times (apply_stamps ss (Times_ (d st))) (d st);
     rBody := drop (times_taken is_TRead l) (rBody st);
     w := w st;
     nows := (nows st + length ss)%nat;
     trace := trace st ++ (stamp_event <$> ss) |}.

Definition field_eqb (f g : field) : bool :=
  match f, g with
  | FStart, FStart | FWroteRequest, FWroteRequest
  | FGotFirstResponseByte, FGotFirstResponseByte | FEnd, FEnd => true
  | _, _ => false
  end.

(** The times at which the field [f] was set, in order. *)
Definition stamped (f : field) (tr : list event) : list Time :=
  omap (fun ev => match ev with
                  | EvStamp g t => if field_eqb f g then Some t else None
                  | _ => None
                  end) tr.

(** The bytes the caller's writer had taken when the record went on the
    channel. *)
Fixpoint accepted_before_send (tr : list event) : list byte :=
  match tr with
  | [] => []
  | EvSend _ :: _ => []
  | EvWrite p n :: tr' => take n p ++ accepted_before_send tr'
  | _ :: tr' => accepted_before_send tr'
  end.

(** Events that write to the caller. *)
Definition is_caller_write (ev : event) : bool :=
  match ev with
  | EvWriteHeader _ | EvWrite _ _ => true
  | _ => false
  end.

(** The world once [prepareRequest] has returned, whether or not it built
    a request: one more buffer, empty, and [d.Request] pointing to it. *)
Definition prepared (st : World) : World :=
  with_d (Data_with_Request (Some (length (heap st))) (d st))
    (with_heap (heap st ++ [[]]) st).

(** The world in which the transport starts on the request: prepared, and
    with [d.Source] set. *)
Definition sourced (r : http_Request) (st : World) : World :=
  with_d (Data_with_Source (Header_Get (rHeader r) "Source") (d (prepared st)))
    (prepared st).

(** The world when [RoundTrip] returns. *)
Definition tripped (env : Env) (r : http_Request) (st : World) : World :=
  after_steps env (length (heap st)) (rt_steps (roundTrip env)) (sourced r st).

(** What the handler does once [handleRequest] has returned [err]. *)
Definition finish (env : Env) (r : http_Request) (err : option error) : M unit :=
  update_d (Data_with_Error err) ;;
  t ← time_Now env ; set_time FEnd t ;;
  x ← gets d ; emit (EvSend x) ;;
  match Error x with
  | Some e =>
    emit (EvLog (rURL r) StatusServiceUnavailable (Some (error_Error e))) ;;
    http_Error (error_Error e) StatusServiceUnavailable ;;
    emit (EvClose RequestBody)
  | None =>
    emit (EvLog (rURL r) (StatusCode x) None) ;;
    emit (EvClose RequestBody)
  end.

(** The world in which [handleRequest] is called. *)
Definition entered (env : Env) (body : Reader) (rw : ResponseWriter) : World :=
  {| heap := [];
     d := Data_with_Times (Times_set FStart (now env 0) Times_zero) Data_zero;
     rBody := body; w := rw; nows := 1%nat;
     trace := [EvStamp FStart (now env 0)] |}.

(** The record the handler sends when [handleRequest] has left the world
    [st] and returned [err]. *)
Definition record (env : Env) (err : option error) (st : World) : Data :=
  Data_with_Times (Times_set FEnd (now env (nows st)) (Times_ (d st)))
    (Data_with_Error err (d st)).

(** The body [http.Error] writes for a message. *)
Definition error_page (msg : string) : list byte :=
  String.list_byte_of_string msg ++ [x0a].

(** [http.Error] on the writer alone: what [Write] returned and the
    writer afterwards. *)
Definition rw_Error (msg : string) (code : Z) (rw : ResponseWriter)
  : (nat * option error) * ResponseWriter :=
  rw_Write (error_page msg)
    (rw_WriteHeader code
       (rw_with_Header
          (Header_Set (Header_Set (w_Header rw) "Content-Type" "text/plain; charset=utf-8")
             "X-Content-Type-Options" "nosniff") rw)).

(** The events after the send. *)
Definition closing (r : http_Request) (x : Data) (rw : ResponseWriter) : list event :=
  match Error x with
  | Some e =>
    [EvLog (rURL r) StatusServiceUnavailable (Some (error_Error e));
     EvWriteHeader StatusServiceUnavailable;
     EvWrite (error_page (error_Error e))
       (rw_Error (error_Error e) StatusServiceUnavailable rw).1.1;
     EvClose RequestBody]
  | None => [EvLog (rURL r) (StatusCode x) None; EvClose RequestBody]
  end.

(** The caller's writer when the handler returns. *)
Definition closed_writer (err : option error) (rw : ResponseWriter) : ResponseWriter :=
  match err with
  | Some e => (rw_Error (error_Error e) StatusServiceUnavailable rw).2
  | None => rw
  end.

(** The events of the pipeline proper, from the call of [handleRequest] to
    its return, when [n] readings of the clock were taken before and the
    caller's writer is [rw]. *)
Definition pipeline_events (env : Env) (u : URL) (r : http_Request)
    (rw : ResponseWriter) (n : nat) : list event :=
  match construction_error env u r with
  | Some _ => []
  | None =>
    (stamp_event <$> hook_stamps env n (rt_steps (roundTrip env)))
    ++ match rt_result (roundTrip env) with
       | inr _ => []
       | inl res =>
         [EvWriteHeader (res_StatusCode res)] ++ cp_events (relay rw res)
         ++ [EvClose ResponseBody]
       end
  end.

(** The events that write to the caller. *)
Definition caller_writes (tr : list event) : list event :=
  List.filter is_caller_write tr.

(** The variable [d] when [RoundTrip] returns, the hooks having made the
    stamps [ss]: the start time, the request buffer at address 0, the
    source tag. *)
Definition sourced_record (env : Env) (r : http_Request) (ss : list (field * Time)) : Data :=
  {| StatusCode := 0; Request := Some 0%nat; Response := None; Error := None;
     Times_ := apply_stamps ss (Times_set FStart (now env 0) Times_zero);
     Source := Header_Get (rHeader r) "Source" |}.

(** The record sent when [handleRequest] has returned [err] and left [x]
    in [d], after [n] readings of the clock. *)
Definition record_of (env : Env) (err : option error) (n : nat) (x : Data) : Data :=
  Data_with_Times (Times_set FEnd (now env n) (Times_ x)) (Data_with_Error err x).

(** More sample inputs: a request, its body in two reads, and what the
    network can make of it. *)
Definition bytes_of (s : string) : list byte := String.list_byte_of_string s.

Definition chunk (s : string) : read_result :=
  {| rr_bytes := bytes_of s; rr_err := None |}.

Definition sample_request : http_Request :=
  {| Method := "POST";
     rURL := mkURL "" "" "/some/path" "";
     rHeader := {[ "Content-Type" := ["text/xml"]; "Source" := ["billing"] ]} |}.

Definition sample_body : Reader := [chunk "<xml>some "; chunk "request</xml>"].

Definition sample_clock (n : nat) : Time := 1000 + Z.of_nat n.

Definition parse_any (s : string) : URL + error :=
  inl (mkURL "http" "up.example" "/some/path" "").

Definition sample_steps : list taction :=
  [TRead; TRead; TRead; written; TGotFirstResponseByte].

Definition sample_response (code : Z) (body : Reader) : http_Response :=
  {| res_StatusCode := code;
     res_Header := {[ "X-Response-Header" := ["response header value"] ]};
     res_Body := body |}.

(** The upstream answers 200 with the body bam. *)
Definition env_ok : Env :=
  {| now := sample_clock; url_Parse := parse_any;
     roundTrip := {| rt_steps := sample_steps;
                     rt_result := inl (sample_response 200 [chunk "ba"; chunk "m"]) |} |}.

(** The upstream answers 500. *)
Definition env_500 : Env :=
  {| now := sample_clock; url_Parse := parse_any;
     roundTrip := {| rt_steps := sample_steps;
                     rt_result := inl (sample_response 500 [chunk "500 - boom"]) |} |}.

(** The upstream answers 503 itself. *)
Definition env_503 : Env :=
  {| now := sample_clock; url_Parse := parse_any;
     roundTrip := {| rt_steps := sample_steps;
                     rt_result := inl (sample_response 503 [chunk "busy"]) |} |}.

(** The connection is refused: nothing is read, no hook fires. *)
Definition env_refused : Env :=
  {| now := sample_clock; url_Parse := parse_any;
     roundTrip := {| rt_steps := [];
                     rt_result := inr (errorString "dial tcp 127.0.0.1:1: connect: connection refused") |} |}.

(** The upstream's body breaks off after the first two bytes. *)
Definition env_truncated : Env :=
  {| now := sample_clock; url_Parse := parse_any;
     roundTrip := {| rt_steps := sample_steps;
                     rt_result := inl (sample_response 200
                       [chunk "ba"; {| rr_bytes := []; rr_err := Some (errorString "unexpected EOF") |}]) |} |}.

(** A caller whose connection takes one more byte and then is gone. *)
Definition gone_after_one : ResponseWriter :=
  fresh_writer (Some (1%nat, errorString "write: broken pipe")).

(** A request whose method is not a token, with a Source header. *)
Definition bad_method_request : http_Request :=
  {| Method := "BAD METHOD";
     rURL := mkURL "" "" "/some/path" "";
     rHeader := {[ "Source" := ["billing"] ]} |}.

(** The stamps the hooks make during a request: none when the outbound
    request could not be built. *)
Definition stamps_of (env : Env) (u : URL) (r : http_Request) : list (field * Time) :=
  match construction_error env u r with
  | Some _ => []
  | None => hook_stamps env 1 (rt_steps (roundTrip env))
  end.

(** A transport that fires the request-written hook twice. *)
Definition env_fires_twice : Env :=
  {| now := sample_clock; url_Parse := parse_any;
     roundTrip := {| rt_steps := [TRead; written; written];
                     rt_result := inl (sample_response 200 [chunk "bam"]) |} |}.

(** The caller's body breaks off while the transport is sending it: the
    transport reports the failed write through the hook and the round trip
    ends in that error. *)
Definition env_write_fails : Env :=
  {| now := sample_clock; url_Parse := parse_any;
     roundTrip := {| rt_steps := [TRead; TWroteRequest {| Err := Some (errorString "unexpected EOF") |}];
                     rt_result := inr (errorString "unexpected EOF") |} |}.

(* ===================================================================== *)
(** ** More observers of a request *)

(** The first error other than [io.EOF] that reading a source to its end
    meets, if any. *)
Fixpoint read_error (src : Reader) : option error :=
  match src with
  | [] => None
  | rr :: src' =>
    match rr_err rr with
    | Some io_EOF => None
    | Some e => Some e
    | None => read_error src'
    end
  end.

(** The number of [Read] calls it takes to reach the end of a source or
    its first error. *)
Fixpoint reads_to_end (src : Reader) : nat :=
  match src with
  | [] => 1%nat
  | rr :: src' =>
    match rr_err rr with
    | Some _ => 1%nat
    | None => S (reads_to_end src')
    end
  end.

(** The caller's writer when [handleRequest] returns. *)
Definition relayed_writer (env : Env) (u : URL) (r : http_Request)
    (rw : ResponseWriter) : ResponseWriter :=
  match construction_error env u r, rt_result (roundTrip env) with
  | None, inl res => cp_w (relay rw res)
  | _, _ => rw
  end.

(** The log lines of a trace. *)
Definition logged (tr : list event) : list (URL * Z * option string) :=
  omap (fun ev => match ev with
                  | EvLog u code msg => Some (u, code, msg)
                  | _ => None
                  end) tr.

(** The calls of the result callback in a trace. *)
Definition callbacks (tr : list event) : list (Z * option error) :=
  omap (fun ev => match ev with
                  | EvCallback code err => Some (code, err)
                  | _ => None
                  end) tr.

Definition closer_eqb (a b : closer) : bool :=
  match a, b with
  | RequestBody, RequestBody | ResponseBody, ResponseBody => true
  | _, _ => false
  end.

(** How often a body is closed in a trace. *)
Definition closes (c : closer) (tr : list event) : nat :=
  length (List.filter (fun ev => match ev with
                                 | EvClose c' => closer_eqb c c'
                                 | _ => false
                                 end) tr).

(** A header map with two names. *)
Definition two_headers : Header :=
  {[ "Accept" := ["text/xml"]; "Source" := ["billing"] ]}.

(** A header map holding a name that is not in canonical form, as a
    direct assignment to the map can leave it. *)
Definition raw_key_header : Header := {[ "x-trace" := ["abc"] ]}.

Definition is_EvWrite (ev : event) : bool :=
  match ev with EvWrite _ _ => true | _ => false end.

(** What the earlier handler does after [process] has failed with [e],
    the caller's writer being [rw]. *)
Definition legacy_failing (r : http_Request) (e : error) (rw : ResponseWriter) : list event :=
  [EvLog (rURL r) StatusServiceUnavailable (Some (error_Error e));
   EvCallback (-1) (Some e);
   EvWriteHeader StatusServiceUnavailable;
   EvWrite (error_page (error_Error e))
     (rw_Error (error_Error e) StatusServiceUnavailable rw).1.1].

(** The events of a request served by the earlier handler. *)
Definition legacy_events (env : Env) (u : URL) (r : http_Request) (rw : ResponseWriter)
  : list event :=
  match construction_error env u r, rt_result (roundTrip env) with
  | Some e, _ | None, inr e => EvClose RequestBody :: legacy_failing r e rw
  | None, inl res =>
    let c := relay rw res in
    [EvWriteHeader (res_StatusCode res)] ++ cp_events c
    ++ [EvClose ResponseBody; EvClose RequestBody]
    ++ match cp_err c with
       | Some e => legacy_failing r e (cp_w c)
       | None =>
         [EvLog (rURL r) (res_StatusCode res) None;
          EvCallback (res_StatusCode res) None]
         ++ (if res_StatusCode res =? StatusOK
             then [EvSend (Legacy.mkData (res_StatusCode res) (Some 0%nat) (Some 1%nat))]
             else [])
       end
  end.

(* ===================================================================== *)
(** * Properties *)

(** ** [rewrite] *)

Lemma append_cons (c : ascii) (a b : string) : String c a +:+ b = String c (a +:+ b).
Proof. reflexivity. Qed.

Lemma append_empty_l (a : string) : "" +:+ a = a.
Proof. reflexivity. Qed.

Lemma append_assoc (a b c : string) : (a +:+ b) +:+ c = a +:+ (b +:+ c).
Proof.
  induction a as [|x a IH]; [reflexivity |].
  rewrite !append_cons. f_equal. exact IH.
Qed.

Lemma append_empty_r (a : string) : a +:+ "" = a.
Proof.
  induction a as [|x a IH]; [reflexivity |].
  rewrite append_cons. f_equal. exact IH.
Qed.

Ltac append_normal :=
  repeat (rewrite append_assoc || rewrite append_cons
          || rewrite append_empty_l || rewrite append_empty_r).

Lemma nonempty_true (a : string) : a <> "" -> nonempty a = true.
Proof. destruct a; [congruence | reflexivity]. Qed.

Lemma shouldEscape_space (mode : encoding) : shouldEscape " " mode = true.
Proof. destruct mode; reflexivity. Qed.

Lemma escape_unescaped (s : string) (mode : encoding) :
  unescaped s mode = true -> escape s mode = s.
Proof.
  unfold unescaped, string_all.
  induction s as [|c s IH]; simpl; [reflexivity |].
  intros [Hc Hs]%andb_prop. rewrite (IH Hs). unfold escape_byte.
  apply negb_true_iff in Hc.
  destruct (Ascii.eqb_spec c " ") as [->|_].
  - rewrite shouldEscape_space in Hc. discriminate.
  - simpl. rewrite Hc. reflexivity.
Qed.

Lemma rewrite_unfold (source target : URL) :
  nonempty (Scheme target) = true -> nonempty (Host target) = true ->
  rewrite source target =
    Scheme target +:+ "://" +:+ escape (Host target) encodeHost
    +:+ (if nonempty (printed_path (Path source))
            && negb (starts_with_slash (printed_path (Path source)))
         then "/" else "")
    +:+ printed_path (Path source)
    +:+ printed_query (RawQuery source).
Proof.
  intros Hs Hh. unfold rewrite, URL_String, EscapedPath, printed_query. simpl.
  fold (printed_path (Path source)). rewrite Hs, Hh. simpl.
  rewrite andb_true_r.
  set (p := printed_path (Path source)).
  destruct (Scheme target) as [|c sch]; [discriminate Hs |].
  destruct (nonempty p && negb (starts_with_slash p));
    destruct (nonempty (RawQuery source));
    rewrite ?append_cons; simpl; append_normal; reflexivity.
Qed.

Lemma printed_path_verbatim (path : string) :
  unescaped path encodePath = true -> starts_with_slash path = true ->
  printed_path path = path.
Proof.
  intros Hu Hs. unfold printed_path.
  destruct (String.eqb_spec path "*") as [->|_]; [discriminate Hs |].
  apply escape_unescaped, Hu.
Qed.

(** C6, as the code has it.  For a target with a scheme and a host,
    [rewrite] yields the target scheme, "://", the target host as [net/url]
    prints a host, then the inbound path, then "?" and the inbound raw
    query when that is not empty.  The path is not copied verbatim: it is
    the decoded [Path] printed again by [net/url] (bytes outside its path
    set become %XX, a missing leading slash is added), and equals the inbound
    path whenever that starts with a slash and holds no byte to escape.  The
    raw query is copied verbatim.  The result depends on the inbound URL
    through [Path] and [RawQuery] only, so not on its scheme, host,
    fragment or raw path. *)
Theorem rewrite_escapes_path (source target : URL) :
  Scheme target <> "" -> Host target <> "" ->
  rewrite source target =
    Scheme target +:+ "://" +:+ escape (Host target) encodeHost
    +:+ (if nonempty (printed_path (Path source))
            && negb (starts_with_slash (printed_path (Path source)))
         then "/" else "")
    +:+ printed_path (Path source)
    +:+ printed_query (RawQuery source)
  /\ (forall source',
        Path source' = Path source -> RawQuery source' = RawQuery source ->
        rewrite source' target = rewrite source target)
  /\ (unescaped (Host target) encodeHost = true ->
      unescaped (Path source) encodePath = true ->
      starts_with_slash (Path source) = true ->
      rewrite source target =
        Scheme target +:+ "://" +:+ Host target +:+ Path source
        +:+ printed_query (RawQuery source)).
Proof.
  intros Hs%nonempty_true Hh%nonempty_true.
  split; [apply rewrite_unfold; assumption |].
  split.
  - intros source' Hp Hq. unfold rewrite. rewrite Hp, Hq. reflexivity.
  - intros Uh Up Sl. rewrite rewrite_unfold by assumption.
    rewrite (printed_path_verbatim _ Up Sl), (escape_unescaped _ _ Uh), Sl.
    rewrite andb_false_r. reflexivity.
Qed.

Lemma rewrite_escapes_path_witness :
  Scheme sample_target <> "" /\ Host sample_target <> "" /\
  rewrite sample_source sample_target = "http://up.example/some/path?a=1&b=2".
Proof.
  split; [discriminate | split; [discriminate |]].
  destruct (rewrite_escapes_path sample_source sample_target) as (_ & _ & H);
    [discriminate | discriminate |].
  rewrite H; reflexivity.
Defined.

(** C6 as the spec words it fails: an inbound path with a space in it comes
    out with the space escaped, not unmodified. *)
Lemma rewrite_not_verbatim :
  ~ (forall source target : URL,
       rewrite source target =
         Scheme target +:+ "://" +:+ Host target +:+ Path source
         +:+ printed_query (RawQuery source)).
Proof.
  intros H. specialize (H spaced_source sample_target).
  vm_compute in H. discriminate H.
Qed.

Example rewrite_spaced :
  rewrite spaced_source sample_target = "http://up.example/a%20b?x=1".
Proof. vm_compute. reflexivity. Qed.

(* ===================================================================== *)
(** ** [copyHeaders] *)

Lemma Header_Get_first_value (h : Header) (k : string) :
  Header_Get h k = first_value h (CanonicalMIMEHeaderKey k).
Proof. reflexivity. Qed.

(** What a key of the result holds, for any order of visit: the first value
    [src] has under it if it is the canonical form of a visited key, and
    what [dst] had otherwise. *)
Lemma copyHeaders_from_lookup (ks : list string) (dst src : Header) (c : string) :
  copyHeaders_from ks dst src !! c =
    if bool_decide (c ∈ CanonicalMIMEHeaderKey <$> ks)
    then Some [first_value src c] else dst !! c.
Proof.
  unfold copyHeaders_from.
  revert dst. induction ks as [|k ks IH]; intros dst.
  - rewrite bool_decide_eq_false_2; [reflexivity | apply not_elem_of_nil].
  - rewrite fmap_cons. cbn [foldl]. rewrite IH. unfold Header_Set, Header_Get.
    destruct (decide (c ∈ CanonicalMIMEHeaderKey <$> ks)) as [Hin|Hout].
    + rewrite !bool_decide_eq_true_2; [reflexivity | | assumption].
      apply elem_of_cons. right. assumption.
    + rewrite (bool_decide_eq_false_2 _ Hout).
      destruct (decide (CanonicalMIMEHeaderKey k = c)) as [<-|Hne].
      * rewrite lookup_insert_eq.
        rewrite bool_decide_eq_true_2; [reflexivity | apply elem_of_cons; left; reflexivity].
      * rewrite lookup_insert_ne by assumption.
        rewrite bool_decide_eq_false_2; [reflexivity |].
        intros [Heq|Hin]%elem_of_cons; [congruence | contradiction].
Qed.

(** The order in which [range] visits the keys does not show in the
    result. *)
Lemma copyHeaders_any_order (ks : list string) (dst src : Header) :
  ks ≡ₚ (map_to_list src).*1 ->
  copyHeaders_from ks dst src = copyHeaders dst src.
Proof.
  intros Hp. apply map_eq. intros c. unfold copyHeaders.
  rewrite !copyHeaders_from_lookup.
  apply (fmap_Permutation CanonicalMIMEHeaderKey) in Hp.
  destruct (decide (c ∈ CanonicalMIMEHeaderKey <$> ks)) as [Hin|Hout].
  - rewrite !bool_decide_eq_true_2; [reflexivity | | assumption].
    rewrite <- Hp. assumption.
  - rewrite !bool_decide_eq_false_2; [reflexivity | | assumption].
    rewrite <- Hp. assumption.
Qed.

Lemma key_in_map_to_list (src : Header) (k : string) :
  k ∈ (map_to_list src).*1 <-> is_Some (src !! k).
Proof.
  rewrite list_elem_of_fmap. split.
  - intros [[k' vs] [-> Hin]]. apply elem_of_map_to_list in Hin. eauto.
  - intros [vs Hvs]. exists (k, vs). split; [reflexivity |].
    apply elem_of_map_to_list. assumption.
Qed.

(** Every key of [src] ends up, under its canonical form, with exactly one
    value: the one [src.Get] returns for it. *)
Lemma copyHeaders_lookup_key (dst src : Header) (k : string) :
  is_Some (src !! k) ->
  copyHeaders dst src !! CanonicalMIMEHeaderKey k = Some [Header_Get src k].
Proof.
  intros Hk. unfold copyHeaders. rewrite copyHeaders_from_lookup.
  rewrite bool_decide_eq_true_2; [reflexivity |].
  apply list_elem_of_fmap. exists k. split; [reflexivity |].
  apply key_in_map_to_list. assumption.
Qed.

Lemma copyHeaders_lookup_other (dst src : Header) (c : string) :
  (forall k, is_Some (src !! k) -> CanonicalMIMEHeaderKey k <> c) ->
  copyHeaders dst src !! c = dst !! c.
Proof.
  intros Hc. unfold copyHeaders. rewrite copyHeaders_from_lookup.
  rewrite bool_decide_eq_false_2; [reflexivity |].
  intros [k [-> Hin]]%list_elem_of_fmap.
  apply key_in_map_to_list in Hin. exact (Hc k Hin eq_refl).
Qed.

(** C5, as the code has it.  Copying replaces per key: a header of the
    source stored under its canonical name [k] with the values [v :: vs]
    comes out on the destination under [k] with the single value [v], so
    [Get] returns [v], the first occurrence when the name repeats (the
    further values [vs] are not copied); a header with one value comes out
    identical; a destination key that is the canonical form of no source
    key keeps what it had. *)
Theorem copyHeaders_first_value (dst src : Header) (k v : string) (vs : list string) :
  CanonicalMIMEHeaderKey k = k ->
  src !! k = Some (v :: vs) ->
  copyHeaders dst src !! k = Some [v]
  /\ Header_Get (copyHeaders dst src) k = v
  /\ (vs = [] -> copyHeaders dst src !! k = src !! k)
  /\ (forall c, (forall k', is_Some (src !! k') -> CanonicalMIMEHeaderKey k' <> c) ->
        copyHeaders dst src !! c = dst !! c).
Proof.
  intros Hcanon Hk.
  assert (Hl : copyHeaders dst src !! k = Some [v]).
  { rewrite <- Hcanon at 1. rewrite copyHeaders_lookup_key by eauto.
    unfold Header_Get, first_value. rewrite Hcanon, Hk. reflexivity. }
  split; [exact Hl |]. split.
  - unfold Header_Get, first_value. rewrite Hcanon, Hl. reflexivity.
  - split.
    + intros ->. rewrite Hl, Hk. reflexivity.
    + apply copyHeaders_lookup_other.
Qed.

Lemma copyHeaders_first_value_witness :
  CanonicalMIMEHeaderKey "X-Foo" = "X-Foo"
  /\ repeated_header !! "X-Foo" = Some ["a"; "b"]
  /\ Header_Get (copyHeaders ∅ repeated_header) "X-Foo" = "a".
Proof.
  split; [reflexivity | split; [reflexivity |]].
  destruct (copyHeaders_first_value ∅ repeated_header "X-Foo" "a" ["b"]) as (_ & H & _);
    [reflexivity | reflexivity | exact H].
Defined.

(** C5 as the spec words it fails: with a name that repeats, what is copied
    is not the last occurrence. *)
Lemma copyHeaders_not_last :
  ~ (forall (dst src : Header) (k : string) (vs : list string),
       src !! k = Some vs ->
       Header_Get (copyHeaders dst src) k = List.last vs "").
Proof.
  intros H. specialize (H ∅ repeated_header "X-Foo" ["a"; "b"] eq_refl).
  vm_compute in H. discriminate H.
Qed.

(** The outbound request carries the inbound header map copied onto an
    empty one. *)
Lemma prepareRequest_copies_headers (env : Env) (r : http_Request) (u : URL)
    (st : World) (req : out_Request) :
  (prepareRequest env r u st).1 = inl req ->
  out_Header req = copyHeaders ∅ (rHeader r).
Proof.
  unfold prepareRequest, http_NewRequest.
  cbv [mbind M_bind mret M_ret Buffer_new update_d modify].
  destruct (negb (validMethod _)); simpl; [discriminate |].
  destruct (url_Parse env _); simpl; [| discriminate].
  intros [= <-]. reflexivity.
Qed.

(* ===================================================================== *)
(** ** Running the pipeline *)

Ltac run :=
  cbv [mbind M_bind mret M_ret modify gets emit update_d set_time time_Now
       Buffer_new Buffer_Write tee tee_rBody_Read w_WriteHeader w_Write
       w_Header_Set fire step the_hooks
       hook_WroteRequest hook_GotFirstResponseByte out_Body out_Trace].

Lemma World_eq (a b : World) :
  heap a = heap b -> d a = d b -> rBody a = rBody b -> w a = w b ->
  nows a = nows b -> trace a = trace b -> a = b.
Proof. destruct a, b; simpl; intros; subst; reflexivity. Qed.

Lemma alter_app_app (p q : list byte) (buf : nat) (h : list (list byte)) :
  alter (fun b => b ++ q) buf (alter (fun b => b ++ p) buf h)
  = alter (fun b => b ++ (p ++ q)) buf h.
Proof.
  rewrite list_alter_alter_eq. apply list_alter_ext; [| reflexivity].
  intros b _. simpl. symmetry. apply app_assoc.
Qed.

Lemma alter_app_nil (buf : nat) (h : list (list byte)) :
  alter (fun b => b ++ []) buf h = h.
Proof. apply list_alter_id. intros b. apply app_nil_r. Qed.

Lemma read_bytes_cons (n : nat) (rr : read_result) (r : Reader) :
  read_bytes (S n) (rr :: r) = rr_bytes rr ++ read_bytes n r.
Proof. reflexivity. Qed.

Lemma read_bytes_nil (n : nat) : read_bytes n [] = [].
Proof. unfold read_bytes. rewrite take_nil. reflexivity. Qed.

Lemma times_taken_cons (p : taction -> bool) (b : taction) (l : list taction) :
  times_taken p (b :: l) = if p b then S (times_taken p l) else times_taken p l.
Proof. unfold times_taken. cbn. destruct (p b); reflexivity. Qed.

(** The transport's steps, in closed form. *)
Lemma steps_spec (env : Env) (req : out_Request) (buf : nat) (l : list taction) :
  out_Body req = tee_rBody_Read buf ->
  out_Trace req = Some (the_hooks env) ->
  forall st, steps req l st = (tt, after_steps env buf l st).
Proof.
  intros Hb Ht. induction l as [|a l IH]; intros st.
  - cbn [steps]. run. f_equal. apply World_eq; simpl.
    + symmetry. apply alter_app_nil.
    + destruct (d st) as [? ? ? ? [] ?]; reflexivity.
    + reflexivity.
    + reflexivity.
    + lia.
    + symmetry. apply app_nil_r.
  - cbn [steps]. unfold mbind at 1, M_bind at 1.
    destruct a.
    + (* the transport reads the body *)
      cbn [step]. rewrite Hb. run.
      destruct (rBody st) as [|rr rest] eqn:Hr; cbn [Reader_Read].
      * cbn. rewrite IH. f_equal. apply World_eq; simpl; rewrite ?times_taken_cons, ?Hr;
          simpl; rewrite ?read_bytes_nil, ?drop_nil; reflexivity.
      * destruct (0 <? length (rr_bytes rr))%nat eqn:Hn; cbn; rewrite IH; f_equal;
          apply World_eq; simpl; rewrite ?times_taken_cons, ?Hr; simpl; try reflexivity.
        -- rewrite read_bytes_cons. apply alter_app_app.
        -- rewrite read_bytes_cons.
           apply Nat.ltb_ge in Hn. destruct (rr_bytes rr); [reflexivity | simpl in Hn; lia].
    + cbn [step]. unfold fire. rewrite Ht. run. rewrite IH. f_equal.
      apply World_eq; simpl; rewrite ?times_taken_cons; simpl; try reflexivity.
      * lia.
      * rewrite <- app_assoc. reflexivity.
    + cbn [step]. unfold fire. rewrite Ht. run. rewrite IH. f_equal.
      apply World_eq; simpl; rewrite ?times_taken_cons; simpl; try reflexivity.
      * lia.
      * rewrite <- app_assoc. reflexivity.
Qed.

Lemma NewRequest_fails (env : Env) (u : URL) (r : http_Request) (e : error)
    (body : M read_result) :
  construction_error env u r = Some e ->
  http_NewRequest env (Method r) (rewrite (rURL r) u) body = inr e.
Proof.
  unfold construction_error, http_NewRequest.
  destruct (negb (validMethod _)); [intros [= <-]; reflexivity |].
  destruct (url_Parse env _); [discriminate | intros [= <-]; reflexivity].
Qed.

Lemma NewRequest_succeeds (env : Env) (u : URL) (r : http_Request)
    (body : M read_result) :
  construction_error env u r = None ->
  exists m' u',
    http_NewRequest env (Method r) (rewrite (rURL r) u) body
    = inl {| out_Method := m'; out_URL := u'; out_Header := ∅;
             out_Body := body; out_Trace := None |}.
Proof.
  unfold construction_error, http_NewRequest.
  destruct (negb (validMethod _)); [discriminate |].
  destruct (url_Parse env _); [| discriminate]. eauto.
Qed.

Lemma prepareRequest_fails (env : Env) (u : URL) (r : http_Request) (e : error)
    (st : World) :
  construction_error env u r = Some e ->
  prepareRequest env r u st = (inr e, prepared st).
Proof.
  intros He. unfold prepareRequest. run.
  rewrite (NewRequest_fails _ _ _ _ _ He). reflexivity.
Qed.

Lemma prepareRequest_succeeds (env : Env) (u : URL) (r : http_Request) (st : World) :
  construction_error env u r = None ->
  exists req,
    prepareRequest env r u st = (inl req, prepared st)
    /\ out_Body req = tee_rBody_Read (length (heap st))
    /\ out_Trace req = Some (the_hooks env).
Proof.
  intros He. unfold prepareRequest. cbv [mbind M_bind Buffer_new].
  destruct (NewRequest_succeeds env u r (tee_rBody_Read (length (heap st))) He)
    as (m' & u' & ->).
  eexists. split; [reflexivity |]. split; reflexivity.
Qed.

Lemma process_run (env : Env) (req : out_Request) (buf : nat) (st : World) :
  out_Body req = tee_rBody_Read buf ->
  out_Trace req = Some (the_hooks env) ->
  process env req st =
    let S := after_steps env buf (rt_steps (roundTrip env)) st in
    match rt_result (roundTrip env) with
    | inr e => (Some e, with_d (Data_with_StatusCode StatusServiceUnavailable (d S)) S)
    | inl res =>
      let c := copy_loop (res_Body res)
                 (rw_WriteHeader (res_StatusCode res)
                    (rw_with_Header (copyHeaders (w_Header (w S)) (res_Header res)) (w S))) in
      (cp_err c,
       {| heap := alter (fun b => b ++ cp_teed c) (length (heap S)) (heap S ++ [[]]);
          d := Data_with_Response (Some (length (heap S)))
                 (Data_with_StatusCode (res_StatusCode res) (d S));
          rBody := rBody S;
          w := cp_w c;
          nows := nows S;
          trace := trace S ++ [EvWriteHeader (res_StatusCode res)] ++ cp_events c
                   ++ [EvClose ResponseBody] |})
    end.
Proof.
  intros Hb Ht. cbv [process Transport_RoundTrip mbind M_bind mret M_ret].
  rewrite (steps_spec env req buf _ Hb Ht).
  set (S := after_steps env buf (rt_steps (roundTrip env)) st).
  destruct (rt_result (roundTrip env)) as [res|e].
  - unfold io_Copy. run. cbn -[copy_loop copyHeaders]. f_equal.
    apply World_eq; cbn -[copy_loop copyHeaders]; try reflexivity.
    rewrite <- !app_assoc. reflexivity.
  - run. reflexivity.
Qed.

Lemma handleRequest_construction_fails (env : Env) (u : URL) (r : http_Request)
    (e : error) (st : World) :
  construction_error env u r = Some e ->
  handleRequest env r u st = (Some e, prepared st).
Proof.
  intros He. unfold handleRequest. unfold mbind, M_bind.
  rewrite (prepareRequest_fails _ _ _ _ _ He). reflexivity.
Qed.

Lemma handleRequest_constructed (env : Env) (u : URL) (r : http_Request) (st : World) :
  construction_error env u r = None ->
  handleRequest env r u st =
    let S := tripped env r st in
    match rt_result (roundTrip env) with
    | inr e => (Some e, with_d (Data_with_StatusCode StatusServiceUnavailable (d S)) S)
    | inl res =>
      let c := relay (w st) res in
      (cp_err c,
       {| heap := alter (fun b => b ++ cp_teed c) (length (heap S)) (heap S ++ [[]]);
          d := Data_with_Response (Some (length (heap S)))
                 (Data_with_StatusCode (res_StatusCode res) (d S));
          rBody := rBody S;
          w := cp_w c;
          nows := nows S;
          trace := trace S ++ [EvWriteHeader (res_StatusCode res)] ++ cp_events c
                   ++ [EvClose ResponseBody] |})
    end.
Proof.
  intros He. unfold handleRequest. unfold mbind at 1, M_bind at 1.
  destruct (prepareRequest_succeeds env u r st He) as (req & -> & Hb & Ht).
  unfold mbind, M_bind, update_d, modify.
  rewrite (process_run env req (length (heap st))) by assumption.
  reflexivity.
Qed.

Lemma serve_stages (env : Env) (u : URL) (r : http_Request)
    (body : Reader) (rw : ResponseWriter) :
  serve env u r body rw =
    (let (err, st) := handleRequest env r u (entered env body rw) in
     finish env r err st).2.
Proof. reflexivity. Qed.

Lemma http_Error_run (msg : string) (code : Z) (st : World) :
  http_Error msg code st =
    (tt, with_trace (trace st ++ [EvWriteHeader code;
                                  EvWrite (error_page msg) (rw_Error msg code (w st)).1.1])
           (with_w (rw_Error msg code (w st)).2 st)).
Proof.
  unfold http_Error, rw_Error, error_page. run. cbn -[rw_Write Header_Set].
  destruct (rw_Write _ _) as [[n e] rw']. cbn. rewrite <- app_assoc. reflexivity.
Qed.

Lemma finish_run (env : Env) (r : http_Request) (err : option error) (st : World) :
  (finish env r err st).2 =
    {| heap := heap st;
       d := record env err st;
       rBody := rBody st;
       w := closed_writer err (w st);
       nows := S (nows st);
       trace := trace st
                ++ [EvStamp FEnd (now env (nows st)); EvSend (record env err st)]
                ++ closing r (record env err st) (w st) |}.
Proof.
  unfold finish, closing, closed_writer.
  cbv [mbind M_bind mret M_ret modify gets emit update_d set_time time_Now].
  cbn -[http_Error rw_Error]. fold (record env err st).
  destruct err as [e|]; cbn -[http_Error rw_Error].
  - rewrite http_Error_run. cbn -[rw_Error].
    apply World_eq; cbn -[rw_Error]; try reflexivity.
    rewrite <- !app_assoc. reflexivity.
  - apply World_eq; cbn; try reflexivity.
    rewrite <- !app_assoc. reflexivity.
Qed.

(* ===================================================================== *)
(** ** The relay *)

Lemma rw_Write_spec (p : list byte) (rw : ResponseWriter) :
  let r := rw_Write p rw in
  w_body r.2 = w_body rw ++ take r.1.1 p
  /\ (r.1.1 <= length p)%nat
  /\ (r.1.2 = None -> r.1.1 = length p)
  /\ w_Header r.2 = w_Header rw
  /\ (is_Some (w_status rw) ->
      w_status r.2 = w_status rw /\ w_sentHeader r.2 = w_sentHeader rw).
Proof.
  unfold rw_Write, rw_WriteHeader.
  destruct (w_status rw) as [c|] eqn:Hs; cbn [w_room];
    destruct (w_room rw) as [[k e]|]; cbn;
    try destruct (Nat.leb_spec (length p) k); cbn;
    rewrite ?firstn_all, ?Hs;
    repeat split; intros; try reflexivity; try lia; try discriminate;
    exfalso; eapply is_Some_None; eassumption.
Qed.

Lemma sent_app (a b : list event) : sent (a ++ b) = sent a ++ sent b.
Proof. apply omap_app. Qed.

Lemma stamped_app (f : field) (a b : list event) :
  stamped f (a ++ b) = stamped f a ++ stamped f b.
Proof. apply omap_app. Qed.

Lemma accepted_app (a b : list event) :
  sent a = [] ->
  accepted_before_send (a ++ b) = accepted_before_send a ++ accepted_before_send b.
Proof.
  induction a as [|ev a IH]; [reflexivity |].
  destruct ev; cbn; intros Hs; try discriminate; rewrite ?IH by assumption;
    try reflexivity.
  apply app_assoc.
Qed.

(** The relay, fact by fact: what the tee holds is what the first
    [cp_reads] reads of the source returned; the caller's writer has grown
    by the bytes it took, which are a prefix of what the tee holds, and all
    of it when no error is returned; the relay only writes to the caller;
    it leaves the header map alone, and the status too once one is out. *)
Lemma copy_loop_spec (src : Reader) (rw : ResponseWriter) :
  let c := copy_loop src rw in
  cp_teed c = read_bytes (cp_reads c) src
  /\ w_body (cp_w c) = w_body rw ++ accepted_before_send (cp_events c)
  /\ accepted_before_send (cp_events c) `prefix_of` cp_teed c
  /\ (cp_err c = None -> accepted_before_send (cp_events c) = cp_teed c)
  /\ sent (cp_events c) = []
  /\ (forall f, stamped f (cp_events c) = [])
  /\ w_Header (cp_w c) = w_Header rw
  /\ (is_Some (w_status rw) ->
      w_status (cp_w c) = w_status rw /\ w_sentHeader (cp_w c) = w_sentHeader rw).
Proof.
  revert rw. induction src as [|rr src IH]; intros rw.
  - cbn. rewrite app_nil_r. repeat split; try reflexivity.
  - cbn [copy_loop].
    assert (Hcase : exists nw ew rw' evs,
      (if (0 <? length (rr_bytes rr))%nat
       then let '(res, rw') := rw_Write (rr_bytes rr) rw in
            (res, rw', [EvWrite (rr_bytes rr) res.1])
       else ((0%nat, None), rw, [])) = ((nw, ew), rw', evs)
      /\ w_body rw' = w_body rw ++ accepted_before_send evs
      /\ accepted_before_send evs `prefix_of` rr_bytes rr
      /\ (ew = None -> accepted_before_send evs = rr_bytes rr
                       /\ ((0 <? length (rr_bytes rr))%nat
                           && negb (length (rr_bytes rr) =? nw)%nat = false))
      /\ sent evs = [] /\ (forall f, stamped f evs = [])
      /\ w_Header rw' = w_Header rw
      /\ (is_Some (w_status rw) ->
          w_status rw' = w_status rw /\ w_sentHeader rw' = w_sentHeader rw)).
    { destruct (0 <? length (rr_bytes rr))%nat eqn:Hn.
      - pose proof (rw_Write_spec (rr_bytes rr) rw) as (Hb & Hle & Hfull & Hh & Hst).
        destruct (rw_Write (rr_bytes rr) rw) as [[nw ew] rw'] eqn:Hw.
        cbn [fst snd] in *.
        exists nw, ew, rw', [EvWrite (rr_bytes rr) nw].
        split; [reflexivity |]. cbn. rewrite app_nil_r.
        repeat split; try assumption; try reflexivity.
        + apply prefix_take.
        + rewrite (Hfull H). apply firstn_all.
        + rewrite (Hfull H), Nat.eqb_refl. reflexivity.
        + apply Hst; assumption.
        + apply Hst; assumption.
      - exists 0%nat, None, rw, [].
        apply Nat.ltb_ge in Hn.
        assert (Hp : rr_bytes rr = []) by (destruct (rr_bytes rr); [reflexivity | simpl in Hn; lia]).
        split; [reflexivity |]. cbn. rewrite app_nil_r, Hp.
        repeat split; reflexivity. }
    destruct Hcase as (nw & ew & rw' & evs & -> & Hb & Hpre & Hfull & Hsent & Hstamp & Hh & Hst).
    destruct ew as [e|].
    { cbn. rewrite app_nil_r. repeat split; try assumption; try discriminate;
        apply Hst; assumption. }
    destruct (Hfull eq_refl) as [Hall ->].
    assert (Hstop : forall err,
      let c := {| cp_written := nw; cp_err := err; cp_reads := 1;
                  cp_teed := rr_bytes rr; cp_w := rw'; cp_events := evs |} in
      cp_teed c = read_bytes (cp_reads c) (rr :: src)
      /\ w_body (cp_w c) = w_body rw ++ accepted_before_send (cp_events c)
      /\ accepted_before_send (cp_events c) `prefix_of` cp_teed c
      /\ (cp_err c = None -> accepted_before_send (cp_events c) = cp_teed c)
      /\ sent (cp_events c) = []
      /\ (forall f, stamped f (cp_events c) = [])
      /\ w_Header (cp_w c) = w_Header rw
      /\ (is_Some (w_status rw) ->
          w_status (cp_w c) = w_status rw /\ w_sentHeader (cp_w c) = w_sentHeader rw)).
    { intros err. cbn. rewrite app_nil_r.
      repeat split; try assumption; try (intros; assumption);
        try (rewrite Hall; reflexivity); apply Hst; assumption. }
    destruct (rr_err rr) as [[| |m]|]; try apply Hstop.
    destruct (IH rw') as (I1 & I2 & I3 & I4 & I5 & I6 & I7 & I8).
    cbn [cp_teed cp_reads cp_w cp_events cp_err].
    rewrite read_bytes_cons, accepted_app, Hall by assumption.
    repeat split.
    + rewrite I1. reflexivity.
    + rewrite I2, Hb, Hall, app_assoc. reflexivity.
    + apply prefix_app. assumption.
    + intros He. rewrite (I4 He). reflexivity.
    + rewrite sent_app, Hsent, I5. reflexivity.
    + intros f. rewrite stamped_app, Hstamp. apply I6.
    + rewrite I7. assumption.
    + rewrite (proj1 (I8 ltac:(rewrite (proj1 (Hst H)); assumption))).
      apply Hst; assumption.
    + rewrite (proj2 (I8 ltac:(rewrite (proj1 (Hst H)); assumption))).
      apply Hst; assumption.
Qed.

(* ===================================================================== *)
(** ** The handler, outcome by outcome *)

Lemma sent_stamps (ss : list (field * Time)) : sent (stamp_event <$> ss) = [].
Proof. induction ss as [|s ss IH]; [reflexivity | exact IH]. Qed.

Lemma sent_closing (r : http_Request) (x : Data) (rw : ResponseWriter) :
  sent (closing r x rw) = [].
Proof. unfold closing. destruct (Error x); reflexivity. Qed.

(** The world after the handler, in terms of the one [handleRequest]
    leaves. *)
Lemma serve_run (env : Env) (u : URL) (r : http_Request)
    (body : Reader) (rw : ResponseWriter) :
  let err := (handleRequest env r u (entered env body rw)).1 in
  let st := (handleRequest env r u (entered env body rw)).2 in
  serve env u r body rw =
    {| heap := heap st;
       d := record env err st;
       rBody := rBody st;
       w := closed_writer err (w st);
       nows := S (nows st);
       trace := trace st
                ++ [EvStamp FEnd (now env (nows st)); EvSend (record env err st)]
                ++ closing r (record env err st) (w st) |}.
Proof.
  cbv zeta. rewrite serve_stages.
  destruct (handleRequest env r u (entered env body rw)) as [err st].
  apply finish_run.
Qed.

(** [handleRequest] adds the events of the pipeline to the trace, and
    nothing else. *)
Lemma handleRequest_trace (env : Env) (u : URL) (r : http_Request) (st : World) :
  trace (handleRequest env r u st).2 = trace st ++ pipeline_events env u r (w st) (nows st).
Proof.
  unfold pipeline_events.
  destruct (construction_error env u r) as [e|] eqn:He.
  - rewrite (handleRequest_construction_fails _ _ _ _ _ He). cbn.
    symmetry. apply app_nil_r.
  - rewrite (handleRequest_constructed _ _ _ _ He). cbv zeta.
    destruct (rt_result (roundTrip env)) as [res|e]; cbn.
    + rewrite <- !app_assoc. reflexivity.
    + rewrite app_nil_r. reflexivity.
Qed.

Lemma handleRequest_error (env : Env) (u : URL) (r : http_Request) (st : World) :
  (handleRequest env r u st).1 = failure env u r (w st).
Proof.
  unfold failure.
  destruct (construction_error env u r) as [e|] eqn:He.
  - rewrite (handleRequest_construction_fails _ _ _ _ _ He). reflexivity.
  - rewrite (handleRequest_constructed _ _ _ _ He). cbv zeta.
    destruct (rt_result (roundTrip env)) as [res|e]; reflexivity.
Qed.

Lemma sent_pipeline (env : Env) (u : URL) (r : http_Request) (rw : ResponseWriter) (n : nat) :
  sent (pipeline_events env u r rw n) = [].
Proof.
  unfold pipeline_events.
  destruct (construction_error env u r); [reflexivity |].
  rewrite sent_app, sent_stamps.
  destruct (rt_result (roundTrip env)) as [res|e]; [| reflexivity].
  rewrite !sent_app. unfold relay.
  destruct (copy_loop_spec (res_Body res) (relay_writer rw res)) as (_ & _ & _ & _ & -> & _).
  reflexivity.
Qed.

(** The whole trace of a request. *)
Lemma serve_trace (env : Env) (u : URL) (r : http_Request)
    (body : Reader) (rw : ResponseWriter) :
  let err := (handleRequest env r u (entered env body rw)).1 in
  let st := (handleRequest env r u (entered env body rw)).2 in
  trace (serve env u r body rw) =
    [EvStamp FStart (now env 0)] ++ pipeline_events env u r rw 1
    ++ [EvStamp FEnd (now env (nows st)); EvSend (record env err st)]
    ++ closing r (record env err st) (w st).
Proof.
  cbv zeta. rewrite serve_run. cbn [trace].
  rewrite handleRequest_trace. cbn [trace entered w nows].
  rewrite <- !app_assoc. reflexivity.
Qed.

Lemma sent_serve (env : Env) (u : URL) (r : http_Request)
    (body : Reader) (rw : ResponseWriter) :
  sent (trace (serve env u r body rw)) = [d (serve env u r body rw)].
Proof.
  rewrite serve_trace, serve_run. cbn [d].
  rewrite !sent_app, sent_pipeline, sent_closing. reflexivity.
Qed.

(** C1.  Whatever the outcome (the outbound request cannot be built, the
    round trip fails, the upstream answers with any status, the relay
    breaks off), the handler sends exactly one record on the channel: its
    variable [d] as it stands at the end. *)
Theorem one_record_per_request (env : Env) (u : URL) (r : http_Request)
    (body : Reader) (rw : ResponseWriter) :
  exists x : Data,
    sent (trace (serve env u r body rw)) = [x]
    /\ x = d (serve env u r body rw).
Proof.
  eexists. split; [apply sent_serve | reflexivity].
Qed.

(* ===================================================================== *)
(** ** Stamps *)

Lemma field_eqb_eq (f g : field) : field_eqb f g = true <-> f = g.
Proof. destruct f, g; simpl; split; congruence. Qed.

Lemma field_eqb_refl (f : field) : field_eqb f f = true.
Proof. destruct f; reflexivity. Qed.

Lemma Times_get_set (f g : field) (v : Time) (t : Times) :
  Times_get f (Times_set g v t) = if field_eqb f g then v else Times_get f t.
Proof. destruct f, g; reflexivity. Qed.

Lemma stamped_cons_stamp (f g : field) (v : Time) (tr : list event) :
  stamped f (EvStamp g v :: tr) =
    if field_eqb f g then v :: stamped f tr else stamped f tr.
Proof. unfold stamped. cbn. destruct (field_eqb f g); reflexivity. Qed.

(** The value a field ends with is the last one stamped into it, and the
    one it had if none was. *)
Lemma Times_get_apply_stamps (f : field) (ss : list (field * Time)) (t : Times) :
  Times_get f (apply_stamps ss t) =
    default (Times_get f t) (last (stamped f (stamp_event <$> ss))).
Proof.
  unfold apply_stamps. revert t.
  induction ss as [|[g v] ss IH]; intros t; [reflexivity |].
  rewrite fmap_cons. cbn [foldl fst snd]. rewrite IH, Times_get_set.
  change (stamp_event (g, v)) with (EvStamp g v). rewrite stamped_cons_stamp.
  destruct (field_eqb f g); [| reflexivity].
  rewrite last_cons. destruct (last _); reflexivity.
Qed.

(** The hooks stamp their own two fields, once per step that fires them. *)
Lemma stamped_hook_stamps (f : field) (env : Env) (n : nat) (l : list taction) :
  length (stamped f (stamp_event <$> hook_stamps env n l)) =
    match f with
    | FWroteRequest => times_taken is_TWroteRequest l
    | FGotFirstResponseByte => times_taken is_TGotFirstResponseByte l
    | FStart | FEnd => 0%nat
    end.
Proof.
  revert n. induction l as [|a l IH]; intros n.
  - destruct f; reflexivity.
  - cbn [hook_stamps]. rewrite !times_taken_cons.
    destruct a; cbn [hook_field]; rewrite ?fmap_cons;
      try match goal with
          | |- context [stamp_event (?g, ?v)] =>
            change (stamp_event (g, v)) with (EvStamp g v)
          end;
      rewrite ?stamped_cons_stamp; destruct f; cbn [field_eqb length];
      rewrite IH; reflexivity.
Qed.

(* ===================================================================== *)
(** ** The round trip fails *)

Lemma caller_writes_app (a b : list event) :
  caller_writes (a ++ b) = caller_writes a ++ caller_writes b.
Proof. apply List.filter_app. Qed.

Lemma caller_writes_stamps (ss : list (field * Time)) :
  caller_writes (stamp_event <$> ss) = [].
Proof. induction ss as [|s ss IH]; [reflexivity | exact IH]. Qed.

Lemma tripped_entered (env : Env) (r : http_Request) (body : Reader) (rw : ResponseWriter) :
  tripped env r (entered env body rw) =
    {| heap := [read_bytes (times_taken is_TRead (rt_steps (roundTrip env))) body];
       d := sourced_record env r (hook_stamps env 1 (rt_steps (roundTrip env)));
       rBody := drop (times_taken is_TRead (rt_steps (roundTrip env))) body;
       w := rw;
       nows := S (length (hook_stamps env 1 (rt_steps (roundTrip env))));
       trace := EvStamp FStart (now env 0)
                :: (stamp_event <$> hook_stamps env 1 (rt_steps (roundTrip env))) |}.
Proof. reflexivity. Qed.

(** The world after a request whose outbound request could not be built. *)
Lemma serve_construction_fails (env : Env) (u : URL) (r : http_Request)
    (body : Reader) (rw : ResponseWriter) (e : error) :
  construction_error env u r = Some e ->
  serve env u r body rw =
    let x := {| StatusCode := 0; Request := Some 0%nat; Response := None;
                Error := Some e;
                Times_ := {| Start := now env 0; WroteRequest := 0;
                             GotFirstResponseByte := 0; End_ := now env 1 |};
                Source := "" |} in
    {| heap := [[]]; d := x; rBody := body;
       w := closed_writer (Some e) rw; nows := 2;
       trace := [EvStamp FStart (now env 0); EvStamp FEnd (now env 1); EvSend x]
                ++ closing r x rw |}.
Proof.
  intros Hc. rewrite serve_run.
  rewrite (handleRequest_construction_fails _ _ _ _ _ Hc). reflexivity.
Qed.

(** The world after a request whose round trip failed. *)
Lemma serve_round_trip_fails (env : Env) (u : URL) (r : http_Request)
    (body : Reader) (rw : ResponseWriter) (e : error) :
  construction_error env u r = None ->
  rt_result (roundTrip env) = inr e ->
  serve env u r body rw =
    let ss := hook_stamps env 1 (rt_steps (roundTrip env)) in
    let x := record_of env (Some e) (S (length ss))
               (Data_with_StatusCode StatusServiceUnavailable (sourced_record env r ss)) in
    {| heap := [read_bytes (times_taken is_TRead (rt_steps (roundTrip env))) body];
       d := x;
       rBody := drop (times_taken is_TRead (rt_steps (roundTrip env))) body;
       w := closed_writer (Some e) rw;
       nows := S (S (length ss));
       trace := (EvStamp FStart (now env 0) :: (stamp_event <$> ss))
                ++ [EvStamp FEnd (now env (S (length ss))); EvSend x]
                ++ closing r x rw |}.
Proof.
  intros Hc Hrt. rewrite serve_run.
  rewrite (handleRequest_constructed _ _ _ _ Hc). cbv zeta.
  rewrite Hrt, tripped_entered. reflexivity.
Qed.

(** The world after a request whose round trip returned a response. *)
Lemma serve_round_trip_returns (env : Env) (u : URL) (r : http_Request)
    (body : Reader) (rw : ResponseWriter) (res : http_Response) :
  construction_error env u r = None ->
  rt_result (roundTrip env) = inl res ->
  serve env u r body rw =
    let ss := hook_stamps env 1 (rt_steps (roundTrip env)) in
    let c := relay rw res in
    let x := record_of env (cp_err c) (S (length ss))
               (Data_with_Response (Some 1%nat)
                  (Data_with_StatusCode (res_StatusCode res) (sourced_record env r ss))) in
    {| heap := [read_bytes (times_taken is_TRead (rt_steps (roundTrip env))) body;
                cp_teed c];
       d := x;
       rBody := drop (times_taken is_TRead (rt_steps (roundTrip env))) body;
       w := closed_writer (cp_err c) (cp_w c);
       nows := S (S (length ss));
       trace := (EvStamp FStart (now env 0) :: (stamp_event <$> ss))
                ++ ([EvWriteHeader (res_StatusCode res)] ++ cp_events c
                    ++ [EvClose ResponseBody])
                ++ [EvStamp FEnd (now env (S (length ss))); EvSend x]
                ++ closing r x (cp_w c) |}.
Proof.
  intros Hc Hrt. rewrite serve_run.
  rewrite (handleRequest_constructed _ _ _ _ Hc). cbv zeta.
  rewrite Hrt, tripped_entered. unfold relay.
  apply World_eq; try reflexivity.
  cbn -[copy_loop relay_writer closing closed_writer record].
  repeat (rewrite <- app_assoc || rewrite <- app_comm_cons). reflexivity.
Qed.

Lemma caller_writes_closing_error (r : http_Request) (x : Data) (rw : ResponseWriter)
    (e : error) :
  Error x = Some e ->
  caller_writes (closing r x rw) =
    [EvWriteHeader StatusServiceUnavailable;
     EvWrite (error_page (error_Error e))
       (rw_Error (error_Error e) StatusServiceUnavailable rw).1.1].
Proof. intros He. unfold closing. rewrite He. reflexivity. Qed.

(** [http.Error] on a writer that has no status yet. *)
Lemma rw_Error_spec (msg : string) (code : Z) (rw : ResponseWriter) :
  w_status rw = None ->
  let r := rw_Error msg code rw in
  w_status r.2 = Some code
  /\ w_body r.2 = w_body rw ++ take r.1.1 (error_page msg)
  /\ (w_room rw = None -> r.1.1 = length (error_page msg)).
Proof.
  intros Hs. unfold rw_Error.
  set (rw1 := rw_WriteHeader code _).
  assert (H1 : w_status rw1 = Some code) by (unfold rw1, rw_WriteHeader; cbn; rewrite Hs; reflexivity).
  assert (H2 : w_body rw1 = w_body rw) by (unfold rw1, rw_WriteHeader; cbn; rewrite Hs; reflexivity).
  assert (H3 : w_room rw1 = w_room rw) by (unfold rw1, rw_WriteHeader; cbn; rewrite Hs; reflexivity).
  destruct (rw_Write_spec (error_page msg) rw1) as (Hb & _ & _ & _ & Hst).
  cbv zeta. split; [| split].
  - rewrite (proj1 (Hst ltac:(rewrite H1; eauto))). exact H1.
  - rewrite Hb, H2. reflexivity.
  - intros Hroom. unfold rw_Write, rw_WriteHeader. rewrite H1, H3, Hroom. reflexivity.
Qed.

(** C3.  When the round trip returns an error, the record has status 503
    and that error and no response reader; no buffer was made for a
    response capture; all that is done to the caller's writer is the one
    [http.Error], which comes after the record is sent: status 503 (the
    writer had none yet) and, as body, the error's message followed by the
    newline [http.Error] adds, as far as the connection takes it. *)
Theorem round_trip_error_gives_503 (env : Env) (u : URL) (r : http_Request)
    (body : Reader) (rw : ResponseWriter) (e : error) :
  construction_error env u r = None ->
  rt_result (roundTrip env) = inr e ->
  w_status rw = None ->
  let st := serve env u r body rw in
  exists (x : Data) (n : nat),
    sent (trace st) = [x]
    /\ StatusCode x = StatusServiceUnavailable
    /\ Error x = Some e
    /\ Response x = None
    /\ length (heap st) = 1%nat
    /\ caller_writes (trace st) =
         [EvWriteHeader StatusServiceUnavailable; EvWrite (error_page (error_Error e)) n]
    /\ w st = (rw_Error (error_Error e) StatusServiceUnavailable rw).2
    /\ w_status (w st) = Some StatusServiceUnavailable
    /\ w_body (w st) = w_body rw ++ take n (error_page (error_Error e))
    /\ (w_room rw = None -> n = length (error_page (error_Error e))).
Proof.
  intros Hc Hrt Hw st.
  exists (d st), (rw_Error (error_Error e) StatusServiceUnavailable rw).1.1.
  split; [apply sent_serve |].
  subst st. rewrite (serve_round_trip_fails _ _ _ _ _ _ Hc Hrt). cbv zeta.
  cbn [d heap w trace].
  destruct (rw_Error_spec (error_Error e) StatusServiceUnavailable rw Hw) as (S1 & S2 & S3).
  repeat split; try assumption.
  rewrite !caller_writes_app.
  rewrite (caller_writes_closing_error _ _ _ e) by reflexivity.
  change (caller_writes (EvStamp FStart (now env 0) :: ?l)) with (caller_writes l).
  rewrite caller_writes_stamps. reflexivity.
Qed.

Lemma round_trip_error_gives_503_witness :
  construction_error env_refused sample_target sample_request = None
  /\ rt_result (roundTrip env_refused)
     = inr (errorString "dial tcp 127.0.0.1:1: connect: connection refused")
  /\ w_status (fresh_writer None) = None
  /\ exists (x : Data) (n : nat),
       sent (trace (serve env_refused sample_target sample_request sample_body
                      (fresh_writer None))) = [x]
       /\ StatusCode x = 503 /\ Response x = None /\ n = 50%nat.
Proof.
  split; [reflexivity | split; [reflexivity | split; [reflexivity |]]].
  destruct (round_trip_error_gives_503 env_refused sample_target sample_request
              sample_body (fresh_writer None) _ eq_refl eq_refl eq_refl)
    as (x & n & Hs & Hc & _ & Hr & _ & _ & _ & _ & _ & Hn).
  exists x, n. repeat split; try assumption. exact (Hn eq_refl).
Defined.

(* ===================================================================== *)
(** ** The round trip returns a response *)

Lemma relay_writer_status (rw : ResponseWriter) (res : http_Response) :
  w_status rw = None ->
  w_status (relay_writer rw res) = Some (res_StatusCode res)
  /\ w_sentHeader (relay_writer rw res) = copyHeaders (w_Header rw) (res_Header res)
  /\ w_body (relay_writer rw res) = w_body rw.
Proof.
  intros Hs. unfold relay_writer, rw_WriteHeader. cbn. rewrite Hs. cbn.
  repeat split; reflexivity.
Qed.

(** C7.  When the round trip returns a response and the relay of its body
    then fails with [e], the record carries [e], the upstream's status
    (which is also the status the caller was sent, and stays so), and a
    response reader holding what had been read from the upstream's body
    when the relay stopped. *)
Theorem relay_error_keeps_status (env : Env) (u : URL) (r : http_Request)
    (body : Reader) (rw : ResponseWriter) (res : http_Response) (e : error) :
  construction_error env u r = None ->
  rt_result (roundTrip env) = inl res ->
  cp_err (relay rw res) = Some e ->
  w_status rw = None ->
  let st := serve env u r body rw in
  exists x : Data,
    sent (trace st) = [x]
    /\ Error x = Some e
    /\ StatusCode x = res_StatusCode res
    /\ contents st (Response x)
       = Some (read_bytes (cp_reads (relay rw res)) (res_Body res))
    /\ w_status (w st) = Some (res_StatusCode res)
    /\ (res_StatusCode res <> StatusServiceUnavailable ->
        StatusCode x <> StatusServiceUnavailable).
Proof.
  intros Hc Hrt He Hw st. exists (d st).
  split; [apply sent_serve |].
  subst st. rewrite (serve_round_trip_returns _ _ _ _ _ _ Hc Hrt). cbv zeta.
  cbn [d heap w trace]. rewrite He.
  destruct (copy_loop_spec (res_Body res) (relay_writer rw res))
    as (Ht & _ & _ & _ & _ & _ & _ & Hst).
  fold (relay rw res) in Ht, Hst.
  destruct (relay_writer_status rw res Hw) as (Hs1 & _ & _).
  repeat split.
  - cbn. rewrite Ht. reflexivity.
  - unfold closed_writer, rw_Error.
    set (rw1 := rw_with_Header _ _).
    assert (H1 : w_status rw1 = Some (res_StatusCode res)).
    { unfold rw1. cbn. rewrite (proj1 (Hst ltac:(rewrite Hs1; eauto))). exact Hs1. }
    assert (H2 : rw_WriteHeader StatusServiceUnavailable rw1 = rw1).
    { unfold rw_WriteHeader. rewrite H1. reflexivity. }
    rewrite H2.
    destruct (rw_Write_spec (error_page (error_Error e)) rw1) as (_ & _ & _ & _ & Hk).
    rewrite (proj1 (Hk ltac:(rewrite H1; eauto))). exact H1.
  - cbn. intros H. exact H.
Qed.

Lemma relay_error_keeps_status_witness :
  construction_error env_truncated sample_target sample_request = None
  /\ rt_result (roundTrip env_truncated)
     = inl (sample_response 200
              [chunk "ba"; {| rr_bytes := []; rr_err := Some (errorString "unexpected EOF") |}])
  /\ cp_err (relay (fresh_writer None)
               (sample_response 200
                  [chunk "ba"; {| rr_bytes := []; rr_err := Some (errorString "unexpected EOF") |}]))
     = Some (errorString "unexpected EOF")
  /\ w_status (fresh_writer None) = None
  /\ exists x : Data,
       sent (trace (serve env_truncated sample_target sample_request sample_body
                      (fresh_writer None))) = [x]
       /\ Error x = Some (errorString "unexpected EOF")
       /\ StatusCode x = 200
       /\ contents (serve env_truncated sample_target sample_request sample_body
                      (fresh_writer None)) (Response x) = Some (bytes_of "ba").
Proof.
  split; [reflexivity | split; [reflexivity | split; [reflexivity | split; [reflexivity |]]]].
  destruct (relay_error_keeps_status env_truncated sample_target sample_request
              sample_body (fresh_writer None) _ _ eq_refl eq_refl eq_refl eq_refl)
    as (x & Hs & He & Hc & Hr & _).
  exists x. repeat split; assumption.
Defined.

Lemma accepted_stamps (ss : list (field * Time)) :
  accepted_before_send (stamp_event <$> ss) = [].
Proof. induction ss as [|s ss IH]; [reflexivity | exact IH]. Qed.

(** What the caller had taken when the record was sent is what it took
    during the relay. *)
Lemma accepted_returns (env : Env) (u : URL) (r : http_Request)
    (body : Reader) (rw : ResponseWriter) (res : http_Response) :
  construction_error env u r = None ->
  rt_result (roundTrip env) = inl res ->
  accepted_before_send (trace (serve env u r body rw))
  = accepted_before_send (cp_events (relay rw res)).
Proof.
  intros Hc Hrt. rewrite (serve_round_trip_returns _ _ _ _ _ _ Hc Hrt). cbv zeta.
  cbn [trace].
  destruct (copy_loop_spec (res_Body res) (relay_writer rw res))
    as (_ & _ & _ & _ & Hsent & _).
  fold (relay rw res) in Hsent.
  rewrite accepted_app by (cbn; apply sent_stamps).
  change (accepted_before_send (EvStamp FStart (now env 0) :: ?l))
    with (accepted_before_send l).
  rewrite accepted_stamps. cbn [app].
  change (accepted_before_send (EvWriteHeader (res_StatusCode res) :: ?l))
    with (accepted_before_send l).
  rewrite <- app_assoc, accepted_app by assumption.
  cbn. rewrite !app_nil_r. reflexivity.
Qed.

(** C2, as the code has it.  When the round trip returns a response, the
    record's request reader holds, in order, exactly the bytes the
    transport read from the caller's body, and its response reader exactly
    the bytes read from the upstream's body.  What the caller took of them
    is a prefix of that capture; it is all of it when the record has no
    error, and then it is also all the caller's writer received. *)
Theorem captures_hold_what_was_read (env : Env) (u : URL) (r : http_Request)
    (body : Reader) (rw : ResponseWriter) (res : http_Response) :
  construction_error env u r = None ->
  rt_result (roundTrip env) = inl res ->
  let st := serve env u r body rw in
  let captured := read_bytes (cp_reads (relay rw res)) (res_Body res) in
  exists x : Data,
    sent (trace st) = [x]
    /\ contents st (Request x)
       = Some (read_bytes (times_taken is_TRead (rt_steps (roundTrip env))) body)
    /\ contents st (Response x) = Some captured
    /\ accepted_before_send (trace st) `prefix_of` captured
    /\ (Error x = None ->
        accepted_before_send (trace st) = captured
        /\ w_body (w st) = w_body rw ++ captured).
Proof.
  intros Hc Hrt st captured. exists (d st).
  split; [apply sent_serve |].
  subst st captured. rewrite (accepted_returns _ _ _ _ _ _ Hc Hrt).
  rewrite (serve_round_trip_returns _ _ _ _ _ _ Hc Hrt). cbv zeta.
  cbn [d heap w trace].
  destruct (copy_loop_spec (res_Body res) (relay_writer rw res))
    as (Ht & Hb & Hp & Hf & _).
  fold (relay rw res) in Ht, Hb, Hp, Hf.
  rewrite <- Ht.
  repeat split; try assumption; cbn in H.
  - apply Hf. assumption.
  - rewrite H. cbn. rewrite Hb, (Hf H).
    unfold relay_writer, rw_WriteHeader. destruct (w_status _); reflexivity.
Qed.

Lemma captures_hold_what_was_read_witness :
  construction_error env_ok sample_target sample_request = None
  /\ rt_result (roundTrip env_ok) = inl (sample_response 200 [chunk "ba"; chunk "m"])
  /\ exists x : Data,
       sent (trace (serve env_ok sample_target sample_request sample_body
                      (fresh_writer None))) = [x]
       /\ contents (serve env_ok sample_target sample_request sample_body
                      (fresh_writer None)) (Request x)
          = Some (bytes_of "<xml>some request</xml>")
       /\ contents (serve env_ok sample_target sample_request sample_body
                      (fresh_writer None)) (Response x)
          = Some (bytes_of "bam").
Proof.
  split; [reflexivity | split; [reflexivity |]].
  destruct (captures_hold_what_was_read env_ok sample_target sample_request
              sample_body (fresh_writer None) _ eq_refl eq_refl)
    as (x & Hs & Hq & Hr & _).
  exists x. repeat split; assumption.
Defined.

(** C2 as the spec words it fails: the round trip succeeds, the caller is
    gone after one byte, and the response capture holds the three bytes
    read from the upstream while the caller took one. *)
Lemma capture_exceeds_what_caller_took :
  ~ (forall (env : Env) (u : URL) (r : http_Request) (body : Reader)
            (rw : ResponseWriter) (res : http_Response),
       construction_error env u r = None ->
       rt_result (roundTrip env) = inl res ->
       let st := serve env u r body rw in
       exists x : Data,
         sent (trace st) = [x]
         /\ contents st (Response x) = Some (accepted_before_send (trace st))).
Proof.
  intros H.
  destruct (H env_ok sample_target sample_request sample_body gone_after_one _
              eq_refl eq_refl) as (x & Hs & Hr).
  vm_compute in Hs. injection Hs as <-. vm_compute in Hr. discriminate Hr.
Qed.

(* ===================================================================== *)
(** ** Error, status and source tag of the record *)

Lemma Error_record (env : Env) (err : option error) (st : World) :
  Error (record env err st) = err.
Proof. reflexivity. Qed.

Lemma serve_Error (env : Env) (u : URL) (r : http_Request)
    (body : Reader) (rw : ResponseWriter) :
  Error (d (serve env u r body rw)) = failure env u r rw.
Proof.
  rewrite serve_run. cbn [d]. rewrite Error_record.
  apply (handleRequest_error env u r (entered env body rw)).
Qed.

(** C4, as the code has it.  The record's error is the first failure of
    the request, whether in building the outbound request, in the round
    trip or in the relay of the response body, and is absent when none of
    them fails.  When the round trip fails the status is 503; when it
    returns a response the status is the upstream's, whether or not the
    relay then fails, and also when the upstream's own status is 503. *)
Theorem error_is_first_failure (env : Env) (u : URL) (r : http_Request)
    (body : Reader) (rw : ResponseWriter) :
  let st := serve env u r body rw in
  exists x : Data,
    sent (trace st) = [x]
    /\ Error x = failure env u r rw
    /\ (forall e, construction_error env u r = None ->
          rt_result (roundTrip env) = inr e ->
          StatusCode x = StatusServiceUnavailable)
    /\ (forall res, construction_error env u r = None ->
          rt_result (roundTrip env) = inl res ->
          StatusCode x = res_StatusCode res).
Proof.
  intros st. exists (d st).
  split; [apply sent_serve |]. split; [apply serve_Error |]. split.
  - intros e Hc Hrt. subst st.
    rewrite (serve_round_trip_fails _ _ _ _ _ _ Hc Hrt). reflexivity.
  - intros res Hc Hrt. subst st.
    rewrite (serve_round_trip_returns _ _ _ _ _ _ Hc Hrt). reflexivity.
Qed.

(** C4 as the spec words it fails: the upstream answers 200, its body
    breaks off during the relay; the record has an error although neither
    the construction nor the round trip failed, and its status is not
    503. *)
Lemma error_without_failed_round_trip :
  ~ (forall (env : Env) (u : URL) (r : http_Request) (body : Reader)
            (rw : ResponseWriter) (x : Data),
       sent (trace (serve env u r body rw)) = [x] ->
       let failed := is_Some (construction_error env u r)
                     \/ exists e, rt_result (roundTrip env) = inr e in
       (is_Some (Error x) <-> failed)
       /\ (StatusCode x = StatusServiceUnavailable <-> failed)).
Proof.
  intros H.
  destruct (H env_truncated sample_target sample_request sample_body
              (fresh_writer None) _ (sent_serve _ _ _ _ _)) as [[Hfail _] _].
  destruct Hfail as [[e He] | [e He]].
  - vm_compute. eauto.
  - vm_compute in He. discriminate He.
  - vm_compute in He. discriminate He.
Qed.

(** On the other side of the same coincidence: an upstream that answers
    503 itself gives a record with status 503 and no error. *)
Example upstream_503_without_error :
  let x := d (serve env_503 sample_target sample_request sample_body (fresh_writer None)) in
  StatusCode x = 503 /\ Error x = None.
Proof. vm_compute. split; reflexivity. Qed.

(** When the outbound request cannot be built, [handleRequest] returns
    before anything sets the status or the source tag: the record keeps
    status 0 and an empty tag. *)
Lemma construction_failure_record (env : Env) (u : URL) (r : http_Request)
    (body : Reader) (rw : ResponseWriter) (e : error) :
  construction_error env u r = Some e ->
  let x := d (serve env u r body rw) in
  Error x = Some e /\ StatusCode x = 0 /\ Source x = "" /\ Response x = None
  /\ Request x = Some 0%nat /\ contents (serve env u r body rw) (Request x) = Some [].
Proof.
  intros Hc. cbv zeta. rewrite (serve_construction_fails _ _ _ _ _ _ Hc).
  repeat split; reflexivity.
Qed.

(** C8, as the code has it.  When the outbound request could be built,
    the record's source tag is what [Get] returns for the inbound header
    Source: its first value, verbatim, and the empty string when the header
    is absent. *)
Theorem source_tag_copied (env : Env) (u : URL) (r : http_Request)
    (body : Reader) (rw : ResponseWriter) :
  construction_error env u r = None ->
  let st := serve env u r body rw in
  exists x : Data,
    sent (trace st) = [x]
    /\ Source x = Header_Get (rHeader r) "Source"
    /\ (forall v vs, rHeader r !! "Source" = Some (v :: vs) -> Source x = v)
    /\ (rHeader r !! "Source" = None -> Source x = "").
Proof.
  intros Hc st. exists (d st). split; [apply sent_serve |].
  assert (Hsrc : Source (d st) = Header_Get (rHeader r) "Source").
  { subst st. destruct (rt_result (roundTrip env)) as [res|e] eqn:Hrt.
    - rewrite (serve_round_trip_returns _ _ _ _ _ _ Hc Hrt). reflexivity.
    - rewrite (serve_round_trip_fails _ _ _ _ _ _ Hc Hrt). reflexivity. }
  split; [exact Hsrc |].
  rewrite Hsrc. unfold Header_Get, first_value.
  change (CanonicalMIMEHeaderKey "Source") with "Source".
  split.
  - intros v vs ->. reflexivity.
  - intros ->. reflexivity.
Qed.

Lemma source_tag_copied_witness :
  construction_error env_ok sample_target sample_request = None
  /\ exists x : Data,
       sent (trace (serve env_ok sample_target sample_request sample_body
                      (fresh_writer None))) = [x]
       /\ Source x = "billing".
Proof.
  split; [reflexivity |].
  destruct (source_tag_copied env_ok sample_target sample_request sample_body
              (fresh_writer None) eq_refl) as (x & Hs & _ & Hv & _).
  exists x. split; [exact Hs |]. exact (Hv "billing" [] eq_refl).
Defined.

(** C8 as the spec words it fails: a request whose method is not a token
    carries the header Source, and the record's tag is empty. *)
Lemma source_tag_lost_on_construction_failure :
  ~ (forall (env : Env) (u : URL) (r : http_Request) (body : Reader)
            (rw : ResponseWriter) (x : Data),
       sent (trace (serve env u r body rw)) = [x] ->
       Source x = Header_Get (rHeader r) "Source").
Proof.
  intros H.
  specialize (H env_ok sample_target bad_method_request sample_body
                (fresh_writer None) _ (sent_serve _ _ _ _ _)).
  vm_compute in H. discriminate H.
Qed.

(* ===================================================================== *)
(** ** Timestamps and the order of events *)

(** The times of the record: the start, then the hooks' stamps, then the
    end. *)
Lemma serve_Times (env : Env) (u : URL) (r : http_Request)
    (body : Reader) (rw : ResponseWriter) :
  Times_ (d (serve env u r body rw)) =
    Times_set FEnd (now env (S (length (stamps_of env u r))))
      (apply_stamps (stamps_of env u r) (Times_set FStart (now env 0) Times_zero)).
Proof.
  unfold stamps_of.
  destruct (construction_error env u r) as [e|] eqn:Hc.
  - rewrite (serve_construction_fails _ _ _ _ _ _ Hc). reflexivity.
  - destruct (rt_result (roundTrip env)) as [res|e] eqn:Hrt.
    + rewrite (serve_round_trip_returns _ _ _ _ _ _ Hc Hrt). reflexivity.
    + rewrite (serve_round_trip_fails _ _ _ _ _ _ Hc Hrt). reflexivity.
Qed.

(** The trace of a request: the start stamp, the pipeline, the end stamp,
    the send, the closing events. *)
Lemma serve_trace_shape (env : Env) (u : URL) (r : http_Request)
    (body : Reader) (rw : ResponseWriter) :
  exists rw' : ResponseWriter,
    trace (serve env u r body rw) =
      EvStamp FStart (now env 0)
      :: pipeline_events env u r rw 1
      ++ [EvStamp FEnd (now env (S (length (stamps_of env u r))));
          EvSend (d (serve env u r body rw))]
      ++ closing r (d (serve env u r body rw)) rw'.
Proof.
  unfold stamps_of, pipeline_events.
  destruct (construction_error env u r) as [e|] eqn:Hc.
  - rewrite (serve_construction_fails _ _ _ _ _ _ Hc). exists rw. reflexivity.
  - destruct (rt_result (roundTrip env)) as [res|e] eqn:Hrt.
    + rewrite (serve_round_trip_returns _ _ _ _ _ _ Hc Hrt).
      exists (cp_w (relay rw res)). cbv zeta. cbn [trace d].
      repeat (rewrite <- app_assoc || rewrite <- app_comm_cons). reflexivity.
    + rewrite (serve_round_trip_fails _ _ _ _ _ _ Hc Hrt).
      exists rw. cbv zeta. cbn [trace d].
      repeat (rewrite <- app_assoc || rewrite <- app_comm_cons). reflexivity.
Qed.

Lemma stamped_closing (f : field) (r : http_Request) (x : Data) (rw : ResponseWriter) :
  stamped f (closing r x rw) = [].
Proof. unfold closing. destruct (Error x); reflexivity. Qed.

(** In the pipeline only the hooks stamp. *)
Lemma stamped_pipeline (f : field) (env : Env) (u : URL) (r : http_Request)
    (rw : ResponseWriter) :
  stamped f (pipeline_events env u r rw 1) = stamped f (stamp_event <$> stamps_of env u r).
Proof.
  unfold pipeline_events, stamps_of.
  destruct (construction_error env u r); [reflexivity |].
  rewrite stamped_app.
  destruct (rt_result (roundTrip env)) as [res|e].
  - rewrite !stamped_app. unfold relay.
    destruct (copy_loop_spec (res_Body res) (relay_writer rw res))
      as (_ & _ & _ & _ & _ & Hst & _).
    rewrite Hst. cbn. apply app_nil_r.
  - apply app_nil_r.
Qed.

Lemma stamped_serve (f : field) (env : Env) (u : URL) (r : http_Request)
    (body : Reader) (rw : ResponseWriter) :
  stamped f (trace (serve env u r body rw)) =
    (if field_eqb f FStart then [now env 0] else [])
    ++ stamped f (stamp_event <$> stamps_of env u r)
    ++ (if field_eqb f FEnd then [now env (S (length (stamps_of env u r)))] else []).
Proof.
  destruct (serve_trace_shape env u r body rw) as (rw' & ->).
  rewrite stamped_cons_stamp, !stamped_app, stamped_closing, stamped_pipeline.
  rewrite app_nil_r, stamped_cons_stamp.
  change (stamped f [EvSend ?x]) with (@nil Time).
  destruct (field_eqb f FStart), (field_eqb f FEnd); reflexivity.
Qed.

Lemma length_stamped_stamps_of (f : field) (env : Env) (u : URL) (r : http_Request) :
  length (stamped f (stamp_event <$> stamps_of env u r)) =
    match construction_error env u r, f with
    | None, FWroteRequest => times_taken is_TWroteRequest (rt_steps (roundTrip env))
    | None, FGotFirstResponseByte =>
      times_taken is_TGotFirstResponseByte (rt_steps (roundTrip env))
    | _, _ => 0%nat
    end.
Proof.
  unfold stamps_of. destruct (construction_error env u r).
  - reflexivity.
  - rewrite stamped_hook_stamps. destruct f; reflexivity.
Qed.

(** C9, as the code has it.  The transport firing each of its two hooks
    at most once during the round trip, each of the four timestamps is set
    at most once (the start and the end exactly once), and a field holds
    the time that was stamped into it, or the zero time if none was.  The
    request-written and first-response-byte times stay unset when the
    transport never fires the hook, as when the connection is refused, and
    when the outbound request could not be built.  The request-written
    hook stamps whatever the transport reports, so its time says that the
    writing ended, not that it succeeded. *)
Theorem timestamps_set_at_most_once (env : Env) (u : URL) (r : http_Request)
    (body : Reader) (rw : ResponseWriter) :
  (times_taken is_TWroteRequest (rt_steps (roundTrip env)) <= 1)%nat ->
  (times_taken is_TGotFirstResponseByte (rt_steps (roundTrip env)) <= 1)%nat ->
  let st := serve env u r body rw in
  exists x : Data,
    sent (trace st) = [x]
    /\ (forall f, (length (stamped f (trace st)) <= 1)%nat)
    /\ length (stamped FStart (trace st)) = 1%nat
    /\ length (stamped FEnd (trace st)) = 1%nat
    /\ (forall f, Times_get f (Times_ x) = default 0 (last (stamped f (trace st))))
    /\ (times_taken is_TWroteRequest (rt_steps (roundTrip env)) = 0%nat ->
        WroteRequest (Times_ x) = 0)
    /\ (times_taken is_TGotFirstResponseByte (rt_steps (roundTrip env)) = 0%nat ->
        GotFirstResponseByte (Times_ x) = 0)
    /\ (is_Some (construction_error env u r) ->
        WroteRequest (Times_ x) = 0 /\ GotFirstResponseByte (Times_ x) = 0).
Proof.
  intros Hw Hg st. exists (d st). split; [apply sent_serve |]. subst st.
  assert (Hlen : forall f,
    length (stamped f (trace (serve env u r body rw))) =
      ((if field_eqb f FStart then 1 else 0)
       + length (stamped f (stamp_event <$> stamps_of env u r))
       + (if field_eqb f FEnd then 1 else 0))%nat).
  { intros f. rewrite stamped_serve, !length_app.
    destruct (field_eqb f FStart), (field_eqb f FEnd); cbn; lia. }
  assert (Hval : forall f,
    Times_get f (Times_ (d (serve env u r body rw)))
    = default 0 (last (stamped f (trace (serve env u r body rw))))).
  { intros f. rewrite serve_Times, stamped_serve, Times_get_set, Times_get_apply_stamps.
    rewrite Times_get_set.
    pose proof (length_stamped_stamps_of f env u r) as Hl.
    destruct f; cbn [field_eqb app Times_get Times_zero] in *.
    - destruct (construction_error env u r);
        apply nil_length_inv in Hl; rewrite Hl; reflexivity.
    - rewrite app_nil_r. reflexivity.
    - rewrite app_nil_r. reflexivity.
    - rewrite last_snoc. reflexivity. }
  split; [| split; [| split; [| split; [exact Hval |]]]].
  - intros f. rewrite Hlen, length_stamped_stamps_of.
    destruct (construction_error env u r), f; cbn; lia.
  - rewrite Hlen, length_stamped_stamps_of.
    destruct (construction_error env u r); reflexivity.
  - rewrite Hlen, length_stamped_stamps_of.
    destruct (construction_error env u r); reflexivity.
  - assert (Hzero : forall f,
      length (stamped f (stamp_event <$> stamps_of env u r)) = 0%nat ->
      field_eqb f FStart = false -> field_eqb f FEnd = false ->
      Times_get f (Times_ (d (serve env u r body rw))) = 0).
    { intros f H0 Hs He. rewrite Hval, stamped_serve, Hs, He.
      apply nil_length_inv in H0. rewrite H0. reflexivity. }
    split; [| split].
    + intros H0. apply (Hzero FWroteRequest); [| reflexivity | reflexivity].
      rewrite length_stamped_stamps_of. destruct (construction_error env u r); [reflexivity | exact H0].
    + intros H0. apply (Hzero FGotFirstResponseByte); [| reflexivity | reflexivity].
      rewrite length_stamped_stamps_of. destruct (construction_error env u r); [reflexivity | exact H0].
    + intros [e He]. split.
      * apply (Hzero FWroteRequest); [| reflexivity | reflexivity].
        rewrite length_stamped_stamps_of, He. reflexivity.
      * apply (Hzero FGotFirstResponseByte); [| reflexivity | reflexivity].
        rewrite length_stamped_stamps_of, He. reflexivity.
Qed.

Lemma timestamps_set_at_most_once_witness :
  (times_taken is_TWroteRequest (rt_steps (roundTrip env_refused)) <= 1)%nat
  /\ (times_taken is_TGotFirstResponseByte (rt_steps (roundTrip env_refused)) <= 1)%nat
  /\ exists x : Data,
       sent (trace (serve env_refused sample_target sample_request sample_body
                      (fresh_writer None))) = [x]
       /\ WroteRequest (Times_ x) = 0
       /\ GotFirstResponseByte (Times_ x) = 0.
Proof.
  split; [vm_compute; lia | split; [vm_compute; lia |]].
  destruct (timestamps_set_at_most_once env_refused sample_target sample_request
              sample_body (fresh_writer None))
    as (x & Hs & _ & _ & _ & _ & Hw & Hg & _); [vm_compute; lia | vm_compute; lia |].
  exists x. split; [exact Hs |]. split; [apply Hw | apply Hg]; reflexivity.
Defined.

(** C9 as the spec words it fails: the writing of the request breaks off,
    the transport reports that through the hook, and the request-written
    time is set although the request never was fully written. *)
Lemma written_time_set_though_write_failed :
  ~ (forall (env : Env) (u : URL) (r : http_Request) (body : Reader)
            (rw : ResponseWriter) (x : Data),
       sent (trace (serve env u r body rw)) = [x] ->
       fully_written (rt_steps (roundTrip env)) = false ->
       WroteRequest (Times_ x) = 0).
Proof.
  intros H.
  specialize (H env_write_fails sample_target sample_request sample_body
                (fresh_writer None) _ (sent_serve _ _ _ _ _) eq_refl).
  vm_compute in H. discriminate H.
Qed.

(** The program does not itself guard a field against a second stamp: if a
    transport fired the request-written hook twice, the field would be set
    twice and keep the later time. *)
Example second_firing_overwrites :
  let st := serve env_fires_twice sample_target sample_request sample_body
              (fresh_writer None) in
  stamped FWroteRequest (trace st) = [1001; 1002]
  /\ WroteRequest (Times_ (d st)) = 1002.
Proof. vm_compute. split; reflexivity. Qed.

(** C10.  With a clock that never reads the zero time and never runs
    backwards: the first event of a request is the stamp of the start time
    and nothing later stamps it again; the end time is stamped after
    everything the pipeline does and the record is sent right after it,
    once, carrying both times, neither of them zero, the start not later
    than the end; what follows the send is the log line and, when the
    record has an error, the 503 response to the caller, so that response
    is written after the record is sent. *)
Theorem start_end_and_publication (env : Env) (u : URL) (r : http_Request)
    (body : Reader) (rw : ResponseWriter) :
  (forall n, 0 < now env n) ->
  (forall n m, (n <= m)%nat -> now env n <= now env m) ->
  let st := serve env u r body rw in
  exists (x : Data) (mid post : list event),
    trace st = EvStamp FStart (Start (Times_ x))
               :: mid ++ [EvStamp FEnd (End_ (Times_ x)); EvSend x] ++ post
    /\ sent mid = [] /\ sent post = []
    /\ stamped FStart mid = [] /\ stamped FEnd mid = []
    /\ stamped FStart post = [] /\ stamped FEnd post = []
    /\ Start (Times_ x) <> 0
    /\ End_ (Times_ x) <> 0
    /\ Start (Times_ x) <= End_ (Times_ x)
    /\ (forall e, Error x = Some e ->
          exists n,
            post = [EvLog (rURL r) StatusServiceUnavailable (Some (error_Error e));
                    EvWriteHeader StatusServiceUnavailable;
                    EvWrite (error_page (error_Error e)) n;
                    EvClose RequestBody])
    /\ (Error x = None ->
          post = [EvLog (rURL r) (StatusCode x) None; EvClose RequestBody]).
Proof.
  intros Hpos Hmono st.
  destruct (serve_trace_shape env u r body rw) as (rw' & Htr).
  assert (Hnil : forall f, field_eqb f FWroteRequest = false ->
                           field_eqb f FGotFirstResponseByte = false ->
                           stamped f (stamp_event <$> stamps_of env u r) = []).
  { intros f H1 H2. apply nil_length_inv. rewrite length_stamped_stamps_of.
    destruct (construction_error env u r), f; try reflexivity; discriminate. }
  assert (Hstart : Start (Times_ (d st)) = now env 0).
  { subst st. rewrite serve_Times.
    change (Start ?t) with (Times_get FStart t).
    rewrite Times_get_set, Times_get_apply_stamps, Hnil by reflexivity. reflexivity. }
  assert (Hend : End_ (Times_ (d st)) = now env (S (length (stamps_of env u r)))).
  { subst st. rewrite serve_Times. reflexivity. }
  exists (d st), (pipeline_events env u r rw 1), (closing r (d st) rw').
  rewrite Hstart, Hend.
  split; [exact Htr |].
  split; [apply sent_pipeline |]. split; [apply sent_closing |].
  split; [rewrite stamped_pipeline; apply Hnil; reflexivity |].
  split; [rewrite stamped_pipeline; apply Hnil; reflexivity |].
  split; [apply stamped_closing |]. split; [apply stamped_closing |].
  split; [specialize (Hpos 0%nat); lia |].
  split; [specialize (Hpos (S (length (stamps_of env u r)))); lia |].
  split; [apply Hmono; lia |].
  unfold closing. split.
  - intros e ->. eexists. reflexivity.
  - intros ->. reflexivity.
Qed.

Lemma start_end_and_publication_witness :
  (forall n, 0 < now env_refused n)
  /\ (forall n m, (n <= m)%nat -> now env_refused n <= now env_refused m)
  /\ exists (x : Data) (mid post : list event),
       trace (serve env_refused sample_target sample_request sample_body
                (fresh_writer None))
       = EvStamp FStart (Start (Times_ x))
         :: mid ++ [EvStamp FEnd (End_ (Times_ x)); EvSend x] ++ post
       /\ Start (Times_ x) <= End_ (Times_ x).
Proof.
  assert (H1 : forall n, 0 < now env_refused n)
    by (intros n; cbn; unfold sample_clock; lia).
  assert (H2 : forall n m, (n <= m)%nat -> now env_refused n <= now env_refused m)
    by (intros n m Hnm; cbn; unfold sample_clock; lia).
  split; [exact H1 | split; [exact H2 |]].
  destruct (start_end_and_publication env_refused sample_target sample_request
              sample_body (fresh_writer None) H1 H2)
    as (x & mid & post & Ht & _ & _ & _ & _ & _ & _ & _ & _ & Hle & _).
  exists x, mid, post. split; assumption.
Defined.

(* ===================================================================== *)
(** ** The response header, and the scenarios of the specification *)

(** The header map the caller is sent is the upstream's copied onto the
    writer's, when the writer had not sent a status before. *)
Lemma response_header_copied (env : Env) (u : URL) (r : http_Request)
    (body : Reader) (rw : ResponseWriter) (res : http_Response) :
  construction_error env u r = None ->
  rt_result (roundTrip env) = inl res ->
  w_status rw = None ->
  w_sentHeader (w (serve env u r body rw))
  = copyHeaders (w_Header rw) (res_Header res).
Proof.
  intros Hc Hrt Hw. rewrite (serve_round_trip_returns _ _ _ _ _ _ Hc Hrt).
  cbv zeta. cbn [w].
  destruct (relay_writer_status rw res Hw) as (Hs & Hh & _).
  destruct (copy_loop_spec (res_Body res) (relay_writer rw res))
    as (_ & _ & _ & _ & _ & _ & _ & Hst).
  fold (relay rw res) in Hst.
  destruct (Hst ltac:(rewrite Hs; eauto)) as [Hst1 Hst2].
  unfold closed_writer. destruct (cp_err (relay rw res)) as [e|].
  - unfold rw_Error.
    set (rw1 := rw_with_Header _ _).
    assert (H1 : w_status rw1 = Some (res_StatusCode res))
      by (unfold rw1; cbn; rewrite Hst1; exact Hs).
    assert (H2 : rw_WriteHeader StatusServiceUnavailable rw1 = rw1)
      by (unfold rw_WriteHeader; rewrite H1; reflexivity).
    rewrite H2.
    destruct (rw_Write_spec (error_page (error_Error e)) rw1) as (_ & _ & _ & _ & Hk).
    rewrite (proj2 (Hk ltac:(rewrite H1; eauto))).
    unfold rw1. cbn. rewrite Hst2. exact Hh.
  - rewrite Hst2. exact Hh.
Qed.

(** Scenario A: the upstream answers 200 with the body bam. *)
Example scenario_A :
  let st := serve env_ok sample_target sample_request sample_body (fresh_writer None) in
  w_status (w st) = Some 200
  /\ w_body (w st) = bytes_of "bam"
  /\ w_sentHeader (w st) !! "X-Response-Header" = Some ["response header value"]
  /\ exists x, sent (trace st) = [x]
       /\ StatusCode x = 200 /\ Error x = None
       /\ contents st (Request x) = Some (bytes_of "<xml>some request</xml>")
       /\ contents st (Response x) = Some (bytes_of "bam").
Proof. vm_compute. repeat split. eexists. repeat split. Qed.

(** Scenario B: the upstream answers 500; the record is sent all the same,
    with status 500 and no error. *)
Example scenario_B :
  let st := serve env_500 sample_target sample_request sample_body (fresh_writer None) in
  w_status (w st) = Some 500
  /\ w_body (w st) = bytes_of "500 - boom"
  /\ exists x, sent (trace st) = [x] /\ StatusCode x = 500 /\ Error x = None.
Proof. vm_compute. repeat split. eexists. repeat split. Qed.

(** Scenario C: the connection is refused; the caller gets 503 and the
    record has the error and no response reader. *)
Example scenario_C :
  let st := serve env_refused sample_target sample_request sample_body (fresh_writer None) in
  w_status (w st) = Some 503
  /\ exists x e, sent (trace st) = [x] /\ StatusCode x = 503
       /\ Error x = Some e /\ Response x = None.
Proof. vm_compute. repeat split. do 2 eexists. repeat split. Qed.

(** An inbound raw path is not carried over: an escaped slash comes out
    as a plain one. *)
Example rewrite_drops_raw_path :
  rewrite {| Scheme := ""; Opaque := ""; User := None; Host := "";
             Path := "/a/b"; RawPath := "/a%2Fb"; ForceQuery := false;
             RawQuery := ""; Fragment := "" |} sample_target
  = "http://up.example/a/b".
Proof. vm_compute. reflexivity. Qed.

(* ===================================================================== *)
(** ** The earlier revision *)

(** The earlier handler sent a record only for a 200 without error: with
    the same inputs, nothing goes on the channel for a 500, for a refused
    connection, or for a relay that breaks off. *)
Example legacy_sends_on_200 :
  exists x,
    sent (trace (Legacy.serve env_ok sample_target sample_request sample_body
                   (fresh_writer None))) = [x]
    /\ StatusCode x = 200.
Proof. vm_compute. eexists. split; reflexivity. Qed.

Example legacy_silent_on_500 :
  sent (trace (Legacy.serve env_500 sample_target sample_request sample_body
                 (fresh_writer None))) = [].
Proof. vm_compute. reflexivity. Qed.

Example legacy_silent_on_refused :
  sent (trace (Legacy.serve env_refused sample_target sample_request sample_body
                 (fresh_writer None))) = [].
Proof. vm_compute. reflexivity. Qed.

(** Without a trace on the request, the transport's steps leave the events
    and the caller's writer as they were. *)
Lemma steps_without_trace (req : out_Request) (buf : nat) (l : list taction) :
  out_Body req = tee_rBody_Read buf ->
  out_Trace req = None ->
  forall st, trace (steps req l st).2 = trace st /\ w (steps req l st).2 = w st.
Proof.
  intros Hb Ht. induction l as [|a l IH]; intros st; [split; reflexivity |].
  cbn [steps]. unfold mbind, M_bind.
  destruct (step req a st) as [[] st1] eqn:Hs.
  destruct (IH st1) as [-> ->].
  destruct a; cbn [step] in Hs.
  - rewrite Hb in Hs. revert Hs. run.
    destruct (Reader_Read (rBody st)) as [rr r'].
    destruct (0 <? length (rr_bytes rr))%nat; intros [= <-]; split; reflexivity.
  - unfold fire in Hs. rewrite Ht in Hs. injection Hs as <-. split; reflexivity.
  - unfold fire in Hs. rewrite Ht in Hs. injection Hs as <-. split; reflexivity.
Qed.

(** The earlier handler, in general: a record goes on the channel exactly
    when the outbound request was built, the round trip returned status
    200 and the relay ended without error. *)
Lemma legacy_sends_only_on_200 (env : Env) (u : URL) (r : http_Request)
    (body : Reader) (rw : ResponseWriter) :
  length (sent (trace (Legacy.serve env u r body rw))) =
    match construction_error env u r, rt_result (roundTrip env) with
    | None, inl res =>
      if (res_StatusCode res =? StatusOK) && bool_decide (cp_err (relay rw res) = None)
      then 1%nat else 0%nat
    | _, _ => 0%nat
    end.
Proof.
  unfold Legacy.serve, Legacy.handler, Legacy.process, Legacy.prepareRequest.
  cbv [mbind M_bind Buffer_new].
  destruct (construction_error env u r) as [e|] eqn:Hc.
  - rewrite (NewRequest_fails _ _ _ _ _ Hc). run. rewrite http_Error_run. reflexivity.
  - destruct (NewRequest_succeeds env u r
                (tee_rBody_Read (length (heap (start body rw)))) Hc) as (m' & u' & ->).
    unfold Transport_RoundTrip. cbv [mbind M_bind mret M_ret].
    match goal with
    | |- context [steps ?q ?l ?s] =>
      destruct (steps_without_trace q 0 l eq_refl eq_refl s) as [Htr Hw];
      destruct (steps q l s) as [[] st1]
    end.
    cbn in Htr, Hw.
    destruct (rt_result (roundTrip env)) as [res|e].
    + unfold io_Copy. run. cbn -[copy_loop copyHeaders http_Error].
      rewrite Hw, Htr.
      fold (relay_writer rw res). fold (relay rw res).
      destruct (copy_loop_spec (res_Body res) (relay_writer rw res))
        as (_ & _ & _ & _ & Hsent & _).
      fold (relay rw res) in Hsent.
      destruct (cp_err (relay rw res)) as [e|].
      * rewrite http_Error_run. cbn -[rw_Error relay]. rewrite andb_false_r.
        rewrite !sent_app, Hsent. reflexivity.
      * rewrite andb_true_r.
        destruct (res_StatusCode res =? StatusOK); cbn -[relay];
          rewrite !sent_app, Hsent; reflexivity.
    + run. rewrite http_Error_run. cbn -[rw_Error]. rewrite Htr. reflexivity.
Qed.

(* ===================================================================== *)
(** * Further properties *)

(** ** [copyHeaders] once more *)

(** X1.  After [copyHeaders(dst, src)], [dst.Get] answers as [src.Get]
    does for every key of [src], canonical or not, and the canonical key
    holds exactly that one value; for a key whose canonical form is that
    of no key of [src], [dst.Get] answers as before. *)
Theorem copyHeaders_Get_agrees (dst src : Header) (k : string) :
  is_Some (src !! k) ->
  Header_Get (copyHeaders dst src) k = Header_Get src k
  /\ copyHeaders dst src !! CanonicalMIMEHeaderKey k = Some [Header_Get src k]
  /\ (forall k',
        (forall k0, is_Some (src !! k0) ->
                    CanonicalMIMEHeaderKey k0 <> CanonicalMIMEHeaderKey k') ->
        Header_Get (copyHeaders dst src) k' = Header_Get dst k').
Proof.
  intros Hk.
  pose proof (copyHeaders_lookup_key dst src k Hk) as Hl.
  split; [| split; [exact Hl |]].
  - unfold Header_Get at 1. unfold first_value. rewrite Hl. reflexivity.
  - intros k' Hk'. unfold Header_Get, first_value.
    rewrite copyHeaders_lookup_other by exact Hk'. reflexivity.
Qed.

Lemma copyHeaders_Get_agrees_witness :
  is_Some (raw_key_header !! "x-trace")
  /\ Header_Get (copyHeaders two_headers raw_key_header) "x-trace" = ""
  /\ copyHeaders two_headers raw_key_header !! "X-Trace" = Some [""]
  /\ Header_Get (copyHeaders two_headers raw_key_header) "Source" = "billing".
Proof.
  assert (Hk : is_Some (raw_key_header !! "x-trace")) by (vm_compute; eauto).
  split; [exact Hk |].
  destruct (copyHeaders_Get_agrees two_headers raw_key_header "x-trace" Hk)
    as (H1 & H2 & H3).
  split; [exact H1 | split; [exact H2 |]].
  rewrite H3; [reflexivity |].
  intros k0 [vs Hv]. unfold raw_key_header in Hv.
  apply lookup_singleton_Some in Hv as [<- _]. vm_compute. discriminate.
Defined.

(** X2.  Go does not fix the order in which [range] visits a map: in
    whatever order the keys of [src] are visited, [copyHeaders] leaves the
    same map, so two runs of it cannot differ. *)
Theorem copyHeaders_order_irrelevant (ks1 ks2 : list string) (dst src : Header) :
  ks1 ≡ₚ (map_to_list src).*1 ->
  ks2 ≡ₚ (map_to_list src).*1 ->
  copyHeaders_from ks1 dst src = copyHeaders_from ks2 dst src
  /\ copyHeaders_from ks1 dst src = copyHeaders dst src.
Proof.
  intros H1 H2.
  assert (H : forall ks, ks ≡ₚ (map_to_list src).*1 ->
                         copyHeaders_from ks dst src = copyHeaders dst src).
  { intros ks Hp. apply map_eq. intros c. unfold copyHeaders.
    rewrite !copyHeaders_from_lookup.
    apply (fmap_Permutation CanonicalMIMEHeaderKey) in Hp.
    destruct (decide (c ∈ CanonicalMIMEHeaderKey <$> ks)) as [Hin|Hout].
    - rewrite !bool_decide_eq_true_2; [reflexivity | | assumption].
      rewrite <- Hp. assumption.
    - rewrite !bool_decide_eq_false_2; [reflexivity | | assumption].
      rewrite <- Hp. assumption. }
  split; [rewrite (H ks1 H1), (H ks2 H2); reflexivity | exact (H ks1 H1)].
Qed.

Lemma copyHeaders_order_irrelevant_witness :
  ["Accept"; "Source"] ≡ₚ (map_to_list two_headers).*1
  /\ ["Source"; "Accept"] ≡ₚ (map_to_list two_headers).*1
  /\ copyHeaders_from ["Accept"; "Source"] ∅ two_headers
     = copyHeaders_from ["Source"; "Accept"] ∅ two_headers.
Proof.
  assert (Hl : (map_to_list two_headers).*1 = ["Source"; "Accept"])
    by (vm_compute; reflexivity).
  assert (H1 : ["Accept"; "Source"] ≡ₚ (map_to_list two_headers).*1)
    by (rewrite Hl; apply Permutation_swap).
  assert (H2 : ["Source"; "Accept"] ≡ₚ (map_to_list two_headers).*1)
    by (rewrite Hl; reflexivity).
  split; [exact H1 | split; [exact H2 |]].
  exact (proj1 (copyHeaders_order_irrelevant _ _ ∅ two_headers H1 H2)).
Defined.

(** X3.  Copying from an empty map changes nothing, and copying the same
    map a second time changes nothing more. *)
Theorem copyHeaders_idempotent (dst src : Header) :
  copyHeaders dst ∅ = dst
  /\ copyHeaders (copyHeaders dst src) src = copyHeaders dst src.
Proof.
  split.
  - unfold copyHeaders. rewrite map_to_list_empty. reflexivity.
  - apply map_eq. intros c. unfold copyHeaders.
    rewrite !copyHeaders_from_lookup.
    destruct (bool_decide _); reflexivity.
Qed.

(* ===================================================================== *)
(** ** [rewrite] once more *)







(* ===================================================================== *)
(** ** What the caller is sent *)

Lemma serve_w (env : Env) (u : URL) (r : http_Request)
    (body : Reader) (rw : ResponseWriter) :
  w (serve env u r body rw)
  = closed_writer (failure env u r rw) (relayed_writer env u r rw).
Proof.
  unfold failure, relayed_writer.
  destruct (construction_error env u r) as [e|] eqn:Hc.
  - rewrite (serve_construction_fails _ _ _ _ _ _ Hc). reflexivity.
  - destruct (rt_result (roundTrip env)) as [res|e] eqn:Hrt.
    + rewrite (serve_round_trip_returns _ _ _ _ _ _ Hc Hrt). reflexivity.
    + rewrite (serve_round_trip_fails _ _ _ _ _ _ Hc Hrt). reflexivity.
Qed.

(** [http.Error] on any writer: the body grows by what the connection
    takes of the page; a status already sent stays. *)
Lemma rw_Error_any (msg : string) (code : Z) (rw : ResponseWriter) :
  let r := rw_Error msg code rw in
  w_body r.2 = w_body rw ++ take r.1.1 (error_page msg)
  /\ (w_room rw = None -> r.1.1 = length (error_page msg))
  /\ (forall c, w_status rw = Some c ->
        w_status r.2 = Some c /\ w_sentHeader r.2 = w_sentHeader rw).
Proof.
  unfold rw_Error. set (rw0 := rw_with_Header _ rw).
  set (rw1 := rw_WriteHeader code rw0).
  assert (Hb : w_body rw1 = w_body rw)
    by (unfold rw1, rw_WriteHeader; destruct (w_status rw0); reflexivity).
  assert (Hr : w_room rw1 = w_room rw)
    by (unfold rw1, rw_WriteHeader; destruct (w_status rw0); reflexivity).
  destruct (rw_Write_spec (error_page msg) rw1) as (Hbody & _ & _ & _ & Hst).
  cbv zeta. split; [rewrite Hbody, Hb; reflexivity |]. split.
  - intros Hroom. unfold rw_Write.
    assert (Hr2 : w_room (rw_WriteHeader StatusOK rw1) = None).
    { unfold rw_WriteHeader. destruct (w_status rw1); cbn; rewrite ?Hr; exact Hroom. }
    rewrite Hr2. reflexivity.
  - intros c Hc.
    assert (H1 : rw1 = rw0).
    { unfold rw1, rw_WriteHeader. change (w_status rw0) with (w_status rw).
      rewrite Hc. reflexivity. }
    assert (H2 : w_status rw1 = Some c) by (rewrite H1; exact Hc).
    destruct (Hst ltac:(rewrite H2; eauto)) as [-> ->].
    rewrite H1. split; [exact Hc | reflexivity].
Qed.

(** The relay on a connection that takes everything: the room stays. *)
Lemma rw_Write_room_None (p : list byte) (rw : ResponseWriter) :
  w_room rw = None ->
  (rw_Write p rw).1 = (length p, None) /\ w_room (rw_Write p rw).2 = None.
Proof.
  intros Hr. unfold rw_Write.
  assert (H : w_room (rw_WriteHeader StatusOK rw) = None)
    by (unfold rw_WriteHeader; destruct (w_status rw); cbn; exact Hr).
  rewrite H. split; reflexivity.
Qed.

(** With a caller that takes everything, the relay reads the upstream's
    body to its end or to its first read error, fails only with that
    error, and the caller has been given every byte read. *)
Lemma copy_loop_accepting (src : Reader) (rw : ResponseWriter) :
  w_room rw = None ->
  let c := copy_loop src rw in
  cp_err c = read_error src
  /\ cp_reads c = reads_to_end src
  /\ w_room (cp_w c) = None
  /\ w_body (cp_w c) = w_body rw ++ read_bytes (reads_to_end src) src.
Proof.
  revert rw. induction src as [|rr src IH]; intros rw Hr.
  - cbn. rewrite app_nil_r. repeat split; try reflexivity; assumption.
  - cbn [copy_loop read_error reads_to_end].
    destruct (0 <? length (rr_bytes rr))%nat eqn:Hn.
    + destruct (rw_Write_room_None (rr_bytes rr) rw Hr) as [Hres Hroom].
      pose proof (rw_Write_spec (rr_bytes rr) rw) as (Hb & _).
      destruct (rw_Write (rr_bytes rr) rw) as [[nw ew] rw'].
      cbn [fst snd] in *. injection Hres as -> ->.
      rewrite firstn_all in Hb.
      rewrite Nat.eqb_refl. cbn [negb andb].
      destruct (rr_err rr) as [[| |m]|]; cbn; rewrite ?app_nil_r;
        try (repeat split; try reflexivity; assumption).
      destruct (IH rw' Hroom) as (I1 & I2 & I3 & I4).
      rewrite I1, I2, I3, I4, Hb, <- app_assoc. repeat split; reflexivity.
    + apply Nat.ltb_ge in Hn.
      assert (Hp : rr_bytes rr = [])
        by (destruct (rr_bytes rr); [reflexivity | simpl in Hn; lia]).
      cbn [andb].
      destruct (rr_err rr) as [[| |m]|]; cbn; rewrite ?Hp, ?app_nil_r;
        try (repeat split; try reflexivity; assumption).
      destruct (IH rw Hr) as (I1 & I2 & I3 & I4).
      rewrite I1, I2, I3, I4. cbn. repeat split; reflexivity.
Qed.

Lemma relay_writer_room (rw : ResponseWriter) (res : http_Response) :
  w_room (relay_writer rw res) = w_room rw.
Proof.
  unfold relay_writer, rw_WriteHeader. cbn. destruct (w_status rw); reflexivity.
Qed.

(** X5.  The status the caller is sent, by a writer that had sent none:
    the upstream's when the round trip returned a response, whatever
    happens to the relay afterwards, and 503 when the outbound request
    could not be built or the round trip failed. *)
Theorem caller_status (env : Env) (u : URL) (r : http_Request)
    (body : Reader) (rw : ResponseWriter) :
  w_status rw = None ->
  w_status (w (serve env u r body rw)) =
    Some (match construction_error env u r, rt_result (roundTrip env) with
          | None, inl res => res_StatusCode res
          | _, _ => StatusServiceUnavailable
          end).
Proof.
  intros Hw. rewrite serve_w. unfold failure, relayed_writer.
  destruct (construction_error env u r) as [e|].
  - apply (rw_Error_spec _ _ _ Hw).
  - destruct (rt_result (roundTrip env)) as [res|e].
    + destruct (relay_writer_status rw res Hw) as (Hs & _).
      destruct (copy_loop_spec (res_Body res) (relay_writer rw res))
        as (_ & _ & _ & _ & _ & _ & _ & Hst).
      fold (relay rw res) in Hst.
      destruct (Hst ltac:(rewrite Hs; eauto)) as [Hst1 _]. rewrite Hs in Hst1.
      unfold closed_writer. destruct (cp_err (relay rw res)) as [e|]; [| exact Hst1].
      destruct (rw_Error_any (error_Error e) StatusServiceUnavailable (cp_w (relay rw res)))
        as (_ & _ & Hk).
      apply (Hk _ Hst1).
    + apply (rw_Error_spec _ _ _ Hw).
Qed.

Lemma caller_status_witness :
  w_status (fresh_writer None) = None
  /\ w_status (w (serve env_truncated sample_target sample_request sample_body
                    (fresh_writer None))) = Some 200
  /\ w_status (w (serve env_refused sample_target sample_request sample_body
                    (fresh_writer None))) = Some 503.
Proof.
  split; [reflexivity |]. split.
  - exact (caller_status env_truncated sample_target sample_request sample_body
             (fresh_writer None) eq_refl).
  - exact (caller_status env_refused sample_target sample_request sample_body
             (fresh_writer None) eq_refl).
Defined.

Lemma relay_writer_body (rw : ResponseWriter) (res : http_Response) :
  w_body (relay_writer rw res) = w_body rw.
Proof.
  unfold relay_writer, rw_WriteHeader. cbn. destruct (w_status rw); reflexivity.
Qed.

(** X6.  With a caller that takes every byte, a relay fails only when
    reading the upstream's body fails: the record's error is the first read
    error of that body, its response capture is what was read up to there;
    and when there is no such error the caller has been sent the upstream's
    status, the upstream's header copied onto its own, and as body exactly
    the upstream's body, which is also the capture. *)
Theorem faithful_relay (env : Env) (u : URL) (r : http_Request)
    (body : Reader) (rw : ResponseWriter) (res : http_Response) :
  construction_error env u r = None ->
  rt_result (roundTrip env) = inl res ->
  w_status rw = None ->
  w_room rw = None ->
  let st := serve env u r body rw in
  let upstream := read_bytes (reads_to_end (res_Body res)) (res_Body res) in
  exists x : Data,
    sent (trace st) = [x]
    /\ Error x = read_error (res_Body res)
    /\ contents st (Response x) = Some upstream
    /\ (read_error (res_Body res) = None ->
        w_status (w st) = Some (res_StatusCode res)
        /\ w_sentHeader (w st) = copyHeaders (w_Header rw) (res_Header res)
        /\ w_body (w st) = w_body rw ++ upstream).
Proof.
  intros Hc Hrt Hs Hroom st upstream. exists (d st).
  split; [apply sent_serve |].
  destruct (copy_loop_accepting (res_Body res) (relay_writer rw res))
    as (He & Hreads & _ & Hbody); [rewrite relay_writer_room; exact Hroom |].
  fold (relay rw res) in He, Hreads, Hbody.
  destruct (copy_loop_spec (res_Body res) (relay_writer rw res)) as (Ht & _).
  fold (relay rw res) in Ht.
  split; [| split].
  - subst st. rewrite serve_Error. unfold failure. rewrite Hc, Hrt. exact He.
  - subst st upstream. rewrite (serve_round_trip_returns _ _ _ _ _ _ Hc Hrt).
    cbn. rewrite Ht, Hreads. reflexivity.
  - intros Hnone. subst st upstream. rewrite serve_w.
    unfold failure, relayed_writer. rewrite Hc, Hrt, He, Hnone. cbn [closed_writer].
    destruct (relay_writer_status rw res Hs) as (Hst0 & Hh0 & _).
    destruct (copy_loop_spec (res_Body res) (relay_writer rw res))
      as (_ & _ & _ & _ & _ & _ & _ & Hst).
    fold (relay rw res) in Hst.
    destruct (Hst ltac:(rewrite Hst0; eauto)) as [-> ->].
    split; [exact Hst0 | split; [exact Hh0 |]].
    rewrite Hbody, relay_writer_body. reflexivity.
Qed.

Lemma faithful_relay_witness :
  construction_error env_ok sample_target sample_request = None
  /\ rt_result (roundTrip env_ok) = inl (sample_response 200 [chunk "ba"; chunk "m"])
  /\ w_status (fresh_writer None) = None
  /\ w_room (fresh_writer None) = None
  /\ exists x : Data,
       sent (trace (serve env_ok sample_target sample_request sample_body
                      (fresh_writer None))) = [x]
       /\ Error x = None
       /\ w_body (w (serve env_ok sample_target sample_request sample_body
                       (fresh_writer None))) = bytes_of "bam".
Proof.
  split; [reflexivity | split; [reflexivity | split; [reflexivity | split; [reflexivity |]]]].
  destruct (faithful_relay env_ok sample_target sample_request sample_body
              (fresh_writer None) _ eq_refl eq_refl eq_refl eq_refl)
    as (x & Hs & He & _ & Hw).
  exists x. split; [exact Hs | split; [exact He |]].
  exact (proj2 (proj2 (Hw eq_refl))).
Defined.



(* ===================================================================== *)
(** ** The log line, the closes, the times *)

Lemma copy_loop_writes (src : Reader) (rw : ResponseWriter) :
  forallb is_EvWrite (cp_events (copy_loop src rw)) = true.
Proof.
  revert rw. induction src as [|rr src IH]; intros rw; [reflexivity |].
  cbn [copy_loop].
  destruct (0 <? length (rr_bytes rr))%nat.
  - destruct (rw_Write (rr_bytes rr) rw) as [[nw ew] rw']. cbn [fst snd].
    destruct ew; [reflexivity |].
    destruct (true && negb _); [reflexivity |].
    destruct (rr_err rr) as [[| |m]|]; try reflexivity.
    cbn. apply IH.
  - cbn [andb]. destruct (rr_err rr) as [[| |m]|]; try reflexivity.
    cbn. apply IH.
Qed.

Lemma writes_are_silent (evs : list event) :
  forallb is_EvWrite evs = true ->
  logged evs = [] /\ callbacks evs = [] /\ forall c, closes c evs = 0%nat.
Proof.
  induction evs as [|ev evs IH]; [repeat split |].
  destruct ev; cbn; try discriminate. exact IH.
Qed.

Lemma stamps_are_silent (ss : list (field * Time)) :
  logged (stamp_event <$> ss) = [] /\ forall c, closes c (stamp_event <$> ss) = 0%nat.
Proof. induction ss as [|s ss IH]; [split; reflexivity | exact IH]. Qed.

Lemma logged_app (a b : list event) : logged (a ++ b) = logged a ++ logged b.
Proof. apply omap_app. Qed.

Lemma closes_app (c : closer) (a b : list event) :
  closes c (a ++ b) = (closes c a + closes c b)%nat.
Proof. unfold closes. rewrite List.filter_app, length_app. reflexivity. Qed.

Lemma logged_pipeline (env : Env) (u : URL) (r : http_Request) (rw : ResponseWriter) :
  logged (pipeline_events env u r rw 1) = [].
Proof.
  unfold pipeline_events.
  destruct (construction_error env u r); [reflexivity |].
  rewrite logged_app, (proj1 (stamps_are_silent _)).
  destruct (rt_result (roundTrip env)) as [res|e]; [| reflexivity].
  rewrite !logged_app. unfold relay.
  rewrite (proj1 (writes_are_silent _ (copy_loop_writes (res_Body res) (relay_writer rw res)))).
  reflexivity.
Qed.

(** X8.  Every request leaves exactly one log line.  It carries the
    inbound URL and, when the record has an error, the status 503 and the
    error's message, also when the caller was in fact sent the upstream's
    status before the relay failed; otherwise it carries the record's
    status. *)
Theorem one_log_line (env : Env) (u : URL) (r : http_Request)
    (body : Reader) (rw : ResponseWriter) :
  let st := serve env u r body rw in
  exists x : Data,
    sent (trace st) = [x]
    /\ logged (trace st) =
         [match Error x with
          | Some e => (rURL r, StatusServiceUnavailable, Some (error_Error e))
          | None => (rURL r, StatusCode x, None)
          end].
Proof.
  intros st. exists (d st). split; [apply sent_serve |]. subst st.
  destruct (serve_trace_shape env u r body rw) as (rw' & ->).
  change (logged (EvStamp ?f ?t :: ?l)) with (logged l).
  rewrite !logged_app, logged_pipeline. unfold closing.
  destruct (Error (d (serve env u r body rw))); reflexivity.
Qed.

Lemma closes_pipeline (c : closer) (env : Env) (u : URL) (r : http_Request)
    (rw : ResponseWriter) :
  closes c (pipeline_events env u r rw 1) =
    match c, construction_error env u r, rt_result (roundTrip env) with
    | ResponseBody, None, inl _ => 1%nat
    | _, _, _ => 0%nat
    end.
Proof.
  unfold pipeline_events.
  destruct (construction_error env u r); [destruct c; reflexivity |].
  rewrite closes_app, (proj2 (stamps_are_silent _)).
  destruct (rt_result (roundTrip env)) as [res|e]; [| destruct c; reflexivity].
  rewrite !closes_app. unfold relay.
  rewrite (proj2 (proj2 (writes_are_silent _
             (copy_loop_writes (res_Body res) (relay_writer rw res))))).
  destruct c; reflexivity.
Qed.

(** X9.  The caller's request body is closed exactly once, and that is the
    last thing a request does; the upstream's response body is closed
    exactly once when the round trip returned a response, and never
    otherwise. *)
Theorem bodies_closed_once (env : Env) (u : URL) (r : http_Request)
    (body : Reader) (rw : ResponseWriter) :
  let st := serve env u r body rw in
  closes RequestBody (trace st) = 1%nat
  /\ last (trace st) = Some (EvClose RequestBody)
  /\ closes ResponseBody (trace st) =
       match construction_error env u r, rt_result (roundTrip env) with
       | None, inl _ => 1%nat
       | _, _ => 0%nat
       end.
Proof.
  intros st. subst st.
  destruct (serve_trace_shape env u r body rw) as (rw' & ->).
  assert (Hcl : forall c, closes c (closing r (d (serve env u r body rw)) rw')
                          = if closer_eqb c RequestBody then 1%nat else 0%nat).
  { intros c. unfold closing.
    destruct (Error (d (serve env u r body rw))); destruct c; reflexivity. }
  assert (Hall : forall c,
    closes c (EvStamp FStart (now env 0)
              :: pipeline_events env u r rw 1
                 ++ [EvStamp FEnd (now env (S (length (stamps_of env u r))));
                     EvSend (d (serve env u r body rw))]
                 ++ closing r (d (serve env u r body rw)) rw')
    = (closes c (pipeline_events env u r rw 1)
       + if closer_eqb c RequestBody then 1 else 0)%nat).
  { intros c. change (closes c (EvStamp ?f ?t :: ?l)) with (closes c l).
    rewrite !closes_app, Hcl. cbn. reflexivity. }
  split; [| split].
  - rewrite Hall, closes_pipeline. reflexivity.
  - rewrite app_assoc, app_comm_cons. unfold closing.
    destruct (Error (d (serve env u r body rw))).
    + change [?a; ?b; ?c0; EvClose RequestBody] with ([a; b; c0] ++ [EvClose RequestBody]).
      rewrite app_assoc. apply last_snoc.
    + change [?a; EvClose RequestBody] with ([a] ++ [EvClose RequestBody]).
      rewrite app_assoc. apply last_snoc.
  - rewrite Hall, closes_pipeline. cbn.
    destruct (construction_error env u r); [reflexivity |].
    destruct (rt_result (roundTrip env)); reflexivity.
Qed.

(** The times the hooks stamp are readings of the clock taken after the
    [n] earlier ones. *)
Lemma hook_stamps_readings (f : field) (env : Env) (l : list taction) (n : nat) (t : Time) :
  t ∈ stamped f (stamp_event <$> hook_stamps env n l) ->
  exists k, (n <= k < n + length (hook_stamps env n l))%nat /\ t = now env k.
Proof.
  revert n. induction l as [|a l IH]; intros n; [intros []%elem_of_nil |].
  cbn [hook_stamps]. destruct (hook_field a) as [g|].
  - rewrite fmap_cons. change (stamp_event (g, now env n)) with (EvStamp g (now env n)).
    rewrite stamped_cons_stamp.
    assert (Hrec : t ∈ stamped f (stamp_event <$> hook_stamps env (S n) l) ->
                   exists k, (n <= k < n + length ((g, now env n) :: hook_stamps env (S n) l))%nat
                             /\ t = now env k).
    { intros Hin. destruct (IH _ Hin) as (k & Hk & ->). exists k. cbn. split; [lia | reflexivity]. }
    destruct (field_eqb f g); [| exact Hrec].
    intros [->|Hin]%elem_of_cons; [| exact (Hrec Hin)].
    exists n. cbn. split; [lia | reflexivity].
  - apply IH.
Qed.

Lemma serve_field_value (env : Env) (u : URL) (r : http_Request)
    (body : Reader) (rw : ResponseWriter) (f : field) :
  Times_get f (Times_ (d (serve env u r body rw)))
  = default 0 (last (stamped f (trace (serve env u r body rw)))).
Proof.
  rewrite serve_Times, stamped_serve, Times_get_set, Times_get_apply_stamps.
  rewrite Times_get_set.
  pose proof (length_stamped_stamps_of f env u r) as Hl.
  destruct f; cbn [field_eqb app Times_get Times_zero] in *.
  - destruct (construction_error env u r);
      apply nil_length_inv in Hl; rewrite Hl; reflexivity.
  - rewrite app_nil_r. reflexivity.
  - rewrite app_nil_r. reflexivity.
  - rewrite last_snoc. reflexivity.
Qed.

(** X10.  With a clock that does not run backwards, every time stamped
    during a request lies between the record's start and end times; so
    does, for each of the four fields that was stamped at all, the value
    the record carries. *)
Theorem times_between_start_and_end (env : Env) (u : URL) (r : http_Request)
    (body : Reader) (rw : ResponseWriter) :
  (forall n m, (n <= m)%nat -> now env n <= now env m) ->
  let st := serve env u r body rw in
  let x := d st in
  (forall f t, t ∈ stamped f (trace st) ->
     Start (Times_ x) <= t <= End_ (Times_ x))
  /\ (forall f, stamped f (trace st) <> [] ->
        Start (Times_ x) <= Times_get f (Times_ x) <= End_ (Times_ x)).
Proof.
  intros Hmono st x. subst x st.
  set (ss := stamps_of env u r).
  assert (Hstart : Start (Times_ (d (serve env u r body rw))) = now env 0).
  { pose proof (serve_field_value env u r body rw FStart) as H.
    rewrite stamped_serve in H. cbn [field_eqb Times_get] in H.
    assert (Hn : stamped FStart (stamp_event <$> stamps_of env u r) = []).
    { apply nil_length_inv. rewrite length_stamped_stamps_of.
      destruct (construction_error env u r); reflexivity. }
    rewrite Hn in H. exact H. }
  assert (Hend : End_ (Times_ (d (serve env u r body rw))) = now env (S (length ss))).
  { rewrite serve_Times. reflexivity. }
  assert (Hin : forall f t, t ∈ stamped f (trace (serve env u r body rw)) ->
                exists k, (k <= S (length ss))%nat /\ t = now env k).
  { intros f t. rewrite stamped_serve.
    intros [H|[H|H]%elem_of_app]%elem_of_app.
    - destruct (field_eqb f FStart); [| apply elem_of_nil in H; contradiction].
      apply list_elem_of_singleton in H as ->. exists 0%nat. split; [lia | reflexivity].
    - unfold stamps_of in H. fold ss.
      destruct (construction_error env u r) eqn:Hc; [apply elem_of_nil in H; contradiction |].
      destruct (hook_stamps_readings _ _ _ _ _ H) as (k & Hk & ->).
      exists k. split; [| reflexivity].
      unfold ss, stamps_of. rewrite Hc. lia.
    - destruct (field_eqb f FEnd); [| apply elem_of_nil in H; contradiction].
      apply list_elem_of_singleton in H as ->. exists (S (length ss)). split; [lia | reflexivity]. }
  assert (Hbetween : forall f t, t ∈ stamped f (trace (serve env u r body rw)) ->
            Start (Times_ (d (serve env u r body rw))) <= t
            <= End_ (Times_ (d (serve env u r body rw)))).
  { intros f t Ht. destruct (Hin f t Ht) as (k & Hk & ->).
    rewrite Hstart, Hend. split; apply Hmono; lia. }
  split; [exact Hbetween |].
  intros f Hne. rewrite serve_field_value. apply (Hbetween f).
  destruct (stamped f (trace (serve env u r body rw))) as [|t0 l] eqn:Hl using rev_ind;
    [congruence |].
  rewrite last_snoc. cbn. apply elem_of_app. right. apply list_elem_of_singleton. reflexivity.
Qed.

Lemma times_between_start_and_end_witness :
  (forall n m, (n <= m)%nat -> now env_ok n <= now env_ok m)
  /\ Start (Times_ (d (serve env_ok sample_target sample_request sample_body
                         (fresh_writer None))))
     <= WroteRequest (Times_ (d (serve env_ok sample_target sample_request sample_body
                                   (fresh_writer None))))
     <= End_ (Times_ (d (serve env_ok sample_target sample_request sample_body
                           (fresh_writer None)))).
Proof.
  assert (H : forall n m, (n <= m)%nat -> now env_ok n <= now env_ok m)
    by (intros n m Hnm; cbn; unfold sample_clock; lia).
  split; [exact H |].
  apply (proj2 (times_between_start_and_end env_ok sample_target sample_request
                  sample_body (fresh_writer None) H) FWroteRequest).
  vm_compute. discriminate.
Defined.

(* ===================================================================== *)
(** ** The request side *)

(** X11.  Whenever the outbound request was built, and whether the round
    trip then fails or not, the record's request capture holds exactly the
    bytes the transport read from the caller's body, and the caller's body
    is left with exactly what the transport did not read: the handler
    itself reads nothing of it. *)
Theorem request_capture_any_outcome (env : Env) (u : URL) (r : http_Request)
    (body : Reader) (rw : ResponseWriter) :
  construction_error env u r = None ->
  let st := serve env u r body rw in
  let n := times_taken is_TRead (rt_steps (roundTrip env)) in
  exists x : Data,
    sent (trace st) = [x]
    /\ contents st (Request x) = Some (read_bytes n body)
    /\ rBody st = drop n body.
Proof.
  intros Hc st n. exists (d st). split; [apply sent_serve |]. subst st n.
  destruct (rt_result (roundTrip env)) as [res|e] eqn:Hrt.
  - rewrite (serve_round_trip_returns _ _ _ _ _ _ Hc Hrt). split; reflexivity.
  - rewrite (serve_round_trip_fails _ _ _ _ _ _ Hc Hrt). split; reflexivity.
Qed.

Lemma request_capture_any_outcome_witness :
  construction_error env_write_fails sample_target sample_request = None
  /\ exists x : Data,
       sent (trace (serve env_write_fails sample_target sample_request sample_body
                      (fresh_writer None))) = [x]
       /\ contents (serve env_write_fails sample_target sample_request sample_body
                      (fresh_writer None)) (Request x)
          = Some (bytes_of "<xml>some ")
       /\ rBody (serve env_write_fails sample_target sample_request sample_body
                   (fresh_writer None)) = [chunk "request</xml>"].
Proof.
  split; [reflexivity |].
  destruct (request_capture_any_outcome env_write_fails sample_target sample_request
              sample_body (fresh_writer None) eq_refl) as (x & Hs & Hq & Hb).
  exists x. split; [exact Hs | split; [exact Hq | exact Hb]].
Defined.

(** X12.  When the outbound request cannot be built the pipeline stops
    there: the caller's body is not read, no time but the start and the
    end is stamped, the record carries the error, an empty request capture
    and no response reader, its status is still 0 and not 503, and the
    caller, whose writer had sent nothing, is sent 503 with the error's
    message. *)
Theorem construction_failure_stops (env : Env) (u : URL) (r : http_Request)
    (body : Reader) (rw : ResponseWriter) (e : error) :
  construction_error env u r = Some e ->
  w_status rw = None ->
  let st := serve env u r body rw in
  exists (x : Data) (n : nat),
    sent (trace st) = [x]
    /\ Error x = Some e
    /\ StatusCode x = 0
    /\ contents st (Request x) = Some []
    /\ Response x = None
    /\ WroteRequest (Times_ x) = 0 /\ GotFirstResponseByte (Times_ x) = 0
    /\ rBody st = body
    /\ nows st = 2%nat
    /\ caller_writes (trace st) =
         [EvWriteHeader StatusServiceUnavailable; EvWrite (error_page (error_Error e)) n]
    /\ w_status (w st) = Some StatusServiceUnavailable
    /\ w_body (w st) = w_body rw ++ take n (error_page (error_Error e)).
Proof.
  intros Hc Hw st.
  exists (d st), (rw_Error (error_Error e) StatusServiceUnavailable rw).1.1.
  split; [apply sent_serve |]. subst st.
  rewrite (serve_construction_fails _ _ _ _ _ _ Hc). cbv zeta. cbn [d heap w trace rBody nows].
  destruct (rw_Error_spec (error_Error e) StatusServiceUnavailable rw Hw) as (S1 & S2 & _).
  repeat split; assumption.
Qed.

Lemma construction_failure_stops_witness :
  construction_error env_ok sample_target bad_method_request
  = Some (errorString ("net/http: invalid method " +:+ strconv_Quote "BAD METHOD"))
  /\ w_status (fresh_writer None) = None
  /\ exists (x : Data) (n : nat),
       sent (trace (serve env_ok sample_target bad_method_request sample_body
                      (fresh_writer None))) = [x]
       /\ StatusCode x = 0
       /\ rBody (serve env_ok sample_target bad_method_request sample_body
                   (fresh_writer None)) = sample_body.
Proof.
  split; [reflexivity | split; [reflexivity |]].
  destruct (construction_failure_stops env_ok sample_target bad_method_request
              sample_body (fresh_writer None) _ eq_refl eq_refl)
    as (x & n & Hs & _ & Hc & _ & _ & _ & _ & Hb & _).
  exists x, n. split; [exact Hs | split; [exact Hc | exact Hb]].
Defined.


(* ===================================================================== *)
(** ** The earlier revision once more *)

(** Without a trace on the request, the transport's steps only read: the
    buffer grows by what was read and the body shrinks by it. *)
Lemma steps_plain_spec (req : out_Request) (buf : nat) (l : list taction) :
  out_Body req = tee_rBody_Read buf ->
  out_Trace req = None ->
  forall st,
    steps req l st =
      (tt, with_rBody (drop (times_taken is_TRead l) (rBody st))
             (with_heap (alter (fun b => b ++ read_bytes (times_taken is_TRead l) (rBody st))
                           buf (heap st)) st)).
Proof.
  intros Hb Ht. induction l as [|a l IH]; intros st.
  - cbn [steps]. run. f_equal. apply World_eq; cbn; try reflexivity.
    symmetry. apply alter_app_nil.
  - cbn [steps]. unfold mbind at 1, M_bind at 1.
    destruct a.
    + cbn [step]. rewrite Hb. run.
      destruct (rBody st) as [|rr rest] eqn:Hr; cbn [Reader_Read].
      * cbn. rewrite IH. f_equal. apply World_eq; simpl; rewrite ?times_taken_cons, ?Hr;
          simpl; rewrite ?read_bytes_nil, ?drop_nil; reflexivity.
      * destruct (0 <? length (rr_bytes rr))%nat eqn:Hn; cbn; rewrite IH; f_equal;
          apply World_eq; simpl; rewrite ?times_taken_cons, ?Hr; simpl; try reflexivity.
        -- apply (alter_app_app (rr_bytes rr) (read_bytes (times_taken is_TRead l) rest)).
        -- change (concat (rr_bytes <$> take ?k rest)) with (read_bytes k rest).
           apply Nat.ltb_ge in Hn. destruct (rr_bytes rr); [reflexivity | simpl in Hn; lia].
    + cbn [step]. unfold fire. rewrite Ht. run. rewrite IH. f_equal.
    + cbn [step]. unfold fire. rewrite Ht. run. rewrite IH. f_equal.
Qed.

(** The world after a request served by the earlier handler. *)
Lemma legacy_serve_run (env : Env) (u : URL) (r : http_Request)
    (body : Reader) (rw : ResponseWriter) :
  let st := Legacy.serve env u r body rw in
  trace st = legacy_events env u r rw
  /\ w st = closed_writer (failure env u r rw) (relayed_writer env u r rw)
  /\ heap st = heap (serve env u r body rw)
  /\ rBody st = rBody (serve env u r body rw).
Proof.
  cbv zeta. unfold legacy_events, failure, relayed_writer.
  unfold Legacy.serve, Legacy.handler, Legacy.process, Legacy.prepareRequest.
  cbv [mbind M_bind Buffer_new].
  destruct (construction_error env u r) as [e|] eqn:Hc.
  - rewrite (NewRequest_fails _ _ _ _ _ Hc). run. rewrite http_Error_run.
    rewrite (serve_construction_fails _ _ _ _ _ _ Hc).
    repeat split; reflexivity.
  - destruct (NewRequest_succeeds env u r
                (tee_rBody_Read (length (heap (start body rw)))) Hc) as (m' & u' & ->).
    unfold Transport_RoundTrip. cbv [mbind M_bind mret M_ret].
    match goal with
    | |- context [steps ?q ?l ?s] =>
      rewrite (steps_plain_spec q 0 l eq_refl eq_refl s)
    end.
    destruct (rt_result (roundTrip env)) as [res|e] eqn:Hrt.
    + rewrite (serve_round_trip_returns _ _ _ _ _ _ Hc Hrt).
      unfold io_Copy. run. cbn -[copy_loop copyHeaders http_Error].
      fold (relay_writer rw res). fold (relay rw res).
      destruct (cp_err (relay rw res)) as [e|].
      * rewrite http_Error_run. cbn -[rw_Error relay].
        repeat split; try reflexivity.
        repeat (rewrite <- app_assoc || rewrite <- app_comm_cons). reflexivity.
      * destruct (res_StatusCode res =? StatusOK); cbn -[relay];
          repeat split; try reflexivity;
          repeat (rewrite <- app_assoc || rewrite <- app_comm_cons); reflexivity.
    + rewrite (serve_round_trip_fails _ _ _ _ _ _ Hc Hrt).
      run. rewrite http_Error_run. cbn -[rw_Error].
      repeat split; reflexivity.
Qed.

(** X14.  The earlier handler sends a record only when the outbound
    request was built, the round trip returned status 200 and the relay
    ended without error; the record then has that status and points to the
    request and response buffers.  For any other status, and for every
    failure, nothing goes on the channel. *)
Theorem legacy_record_only_on_200 (env : Env) (u : URL) (r : http_Request)
    (body : Reader) (rw : ResponseWriter) :
  sent (trace (Legacy.serve env u r body rw)) =
    match construction_error env u r, rt_result (roundTrip env) with
    | None, inl res =>
      if (res_StatusCode res =? StatusOK) && bool_decide (cp_err (relay rw res) = None)
      then [Legacy.mkData StatusOK (Some 0%nat) (Some 1%nat)]
      else []
    | _, _ => []
    end.
Proof.
  rewrite (proj1 (legacy_serve_run env u r body rw)). unfold legacy_events.
  destruct (construction_error env u r) as [e0|]; [reflexivity |].
  destruct (rt_result (roundTrip env)) as [res|e0]; [| reflexivity].
  cbv zeta. rewrite !sent_app.
  pose proof (copy_loop_spec (res_Body res) (relay_writer rw res))
    as (_ & _ & _ & _ & Hsent & _).
  fold (relay rw res) in Hsent. rewrite Hsent.
  destruct (cp_err (relay rw res)) as [e0|].
  - rewrite andb_false_r. reflexivity.
  - rewrite andb_true_r, sent_app.
    destruct (Z.eqb_spec (res_StatusCode res) StatusOK) as [->|_]; reflexivity.
Qed.

Lemma callbacks_app (a b : list event) : callbacks (a ++ b) = callbacks a ++ callbacks b.
Proof. apply omap_app. Qed.

(** X15.  The earlier handler calls the result callback exactly once per
    request: with -1 and the error when building the request, the round
    trip or the relay failed, and with the upstream's status and no error
    otherwise, whatever that status is. *)
Theorem legacy_callback_once (env : Env) (u : URL) (r : http_Request)
    (body : Reader) (rw : ResponseWriter) :
  let tr := trace (Legacy.serve env u r body rw) in
  length (callbacks tr) = 1%nat
  /\ (forall e, failure env u r rw = Some e -> callbacks tr = [(-1, Some e)])
  /\ (forall res, construction_error env u r = None ->
        rt_result (roundTrip env) = inl res ->
        cp_err (relay rw res) = None ->
        callbacks tr = [(res_StatusCode res, None)]).
Proof.
  cbv zeta. rewrite (proj1 (legacy_serve_run env u r body rw)).
  assert (Hcb : callbacks (legacy_events env u r rw) =
    [match construction_error env u r, rt_result (roundTrip env) with
     | Some e, _ | None, inr e => (-1, Some e)
     | None, inl res =>
       match cp_err (relay rw res) with
       | Some e => (-1, Some e)
       | None => (res_StatusCode res, None)
       end
     end]).
  { unfold legacy_events.
    destruct (construction_error env u r) as [e0|]; [reflexivity |].
    destruct (rt_result (roundTrip env)) as [res|e0]; [| reflexivity].
    cbv zeta. rewrite !callbacks_app.
    pose proof (proj1 (proj2 (writes_are_silent _
                 (copy_loop_writes (res_Body res) (relay_writer rw res))))) as Hsil.
    fold (relay rw res) in Hsil. rewrite Hsil.
    destruct (cp_err (relay rw res)) as [e0|]; [reflexivity |].
    rewrite callbacks_app.
    destruct (res_StatusCode res =? StatusOK); reflexivity. }
  rewrite Hcb. split; [reflexivity |]. unfold failure. split.
  - intros e He.
    destruct (construction_error env u r) as [e0|]; [congruence |].
    destruct (rt_result (roundTrip env)) as [res|e0]; [| congruence].
    rewrite He. reflexivity.
  - intros res -> -> ->. reflexivity.
Qed.

(** X16.  The two revisions treat the caller and the bodies alike: after
    any request the caller's writer, the capture buffers and what is left
    of the caller's body are the same under the earlier handler as under
    the current one; and a record the earlier handler sends has the status,
    request reader and response reader of the record the current handler
    sends, which then has status 200 and no error. *)
Theorem revisions_agree (env : Env) (u : URL) (r : http_Request)
    (body : Reader) (rw : ResponseWriter) :
  let old := Legacy.serve env u r body rw in
  let new := serve env u r body rw in
  w old = w new /\ heap old = heap new /\ rBody old = rBody new
  /\ (forall x, x ∈ sent (trace old) ->
        StatusCode x = StatusCode (d new)
        /\ Request x = Request (d new)
        /\ Response x = Response (d new)
        /\ StatusCode (d new) = StatusOK
        /\ Error (d new) = None).
Proof.
  cbv zeta.
  destruct (legacy_serve_run env u r body rw) as (Htr & Hw & Hh & Hb).
  split; [rewrite Hw, serve_w; reflexivity |].
  split; [exact Hh |]. split; [exact Hb |].
  intros x. rewrite Htr, serve_Error. unfold legacy_events, failure.
  destruct (construction_error env u r) as [e0|] eqn:Hc;
    [intros []%elem_of_nil |].
  destruct (rt_result (roundTrip env)) as [res|e0] eqn:Hrt;
    [| intros []%elem_of_nil].
  cbv zeta. rewrite !sent_app. unfold relay at 1.
  destruct (copy_loop_spec (res_Body res) (relay_writer rw res))
    as (_ & _ & _ & _ & -> & _).
  cbn [sent omap app].
  rewrite (serve_round_trip_returns _ _ _ _ _ _ Hc Hrt). cbv zeta. cbn [d].
  destruct (cp_err (relay rw res)) as [e0|]; [intros []%elem_of_nil |].
  cbn. destruct (Z.eqb_spec (res_StatusCode res) StatusOK) as [Heq|_];
    [| intros []%elem_of_nil].
  intros ->%list_elem_of_singleton. cbn. repeat split. exact Heq.
Qed.
